(** * Wolverine: the response validator and the patch engine

    A shallow embedding of the two functions of the repository that carry
    its logic,

      - [json_validated_response], the retry loop that turns the text of a
        model reply into a parsed JSON array, in its two versions
        (src/wolverine/wolverine.py and src/tests/test_wolverine.py), and
      - [apply_changes], the pass that applies a batch of line edits to the
        lines of a file (the same text in both files),

    together with the parts of Python they rest on: [json.loads], the list
    operations [l[i] = v], [del l[i]], [l.insert(i, v)] with their negative
    indices, the stable [list.sort(key=..., reverse=True)], and dictionary
    access with its [KeyError]. *)

From Stdlib Require Import ZArith Lia Ascii String DecimalString.
From stdpp Require Import base tactics option list sorting strings gmap.

Local Open Scope Z_scope.

(** ** Python exceptions *)

(** The exception classes the two functions can raise or meet: Python's
    built-in classes and those of the HTTP layer under the chat call. *)
Inductive exn : Type :=
  | KeyError
  | TypeError
  | IndexError
  | UnboundLocalError
  | OverflowError
  | ConnectionError        (* network failure of the chat call *)
  | HTTPError              (* [raise_for_status] *)
  | ResponseDecodeError.   (* [response.json()]: the HTTP body is not JSON *)

(** [except (json.decoder.JSONDecodeError, ValueError)]: of the exceptions
    above only the decode error of the HTTP body is a [ValueError]
    ([requests.exceptions.JSONDecodeError] derives from
    [json.JSONDecodeError]). *)
Definition is_ValueError (e : exn) : bool :=
  match e with
  | ResponseDecodeError => true
  | _ => false
  end.

(** Results of fallible code: a value or a raised exception. *)
Inductive res (A : Type) : Type :=
  | Ok (a : A)
  | Err (e : exn).
Arguments Ok {A} a.
Arguments Err {A} e.

Global Instance res_ret : MRet res := @Ok.
Global Instance res_bind : MBind res := λ A B k r,
  match r with
  | Ok a => k a
  | Err e => Err e
  end.

(** [for x in l: acc = f(acc, x)], stopping at the first exception. *)
Fixpoint try_fold {A B : Type} (f : B → A → res B) (l : list A) (b : B) : res B :=
  match l with
  | [] => Ok b
  | x :: l' => b' ← f b x; try_fold f l' b'
  end.

(** [[f(x) for x in l]], stopping at the first exception. *)
Fixpoint try_map {A B : Type} (f : A → res B) (l : list A) : res (list B) :=
  match l with
  | [] => Ok []
  | x :: l' => y ← f x; ys ← try_map f l'; Ok (y :: ys)
  end.

(** [[x for x in l if p(x)]], where the test itself may raise. *)
Fixpoint try_filter {A : Type} (p : A → res bool) (l : list A) : res (list A) :=
  match l with
  | [] => Ok []
  | x :: l' =>
      p x ≫= λ b : bool,
        ys ← try_filter p l'; Ok (if b then x :: ys else ys)
  end.

(** ** JSON values, as [json.loads] builds them *)

(** Strings are byte strings holding the UTF-8 encoding of the Python text.
    A number without fraction and exponent is a Python [int]; any other
    number is a [float], kept as the text that was read. An object keeps
    its members in the order read; [dict(pairs)] semantics (the last
    duplicate wins) is in [dict_get]. *)
#[local] Unset Elimination Schemes.
Inductive json : Type :=
  | JNull
  | JBool (b : bool)
  | JInt (z : Z)
  | JFloat (lexeme : string)
  | JStr (s : string)
  | JArr (items : list json)
  | JObj (members : list (string * json)).
#[local] Set Elimination Schemes.

(** [key in d] for a dict. *)
Fixpoint dict_mem (key : string) (d : list (string * json)) : bool :=
  match d with
  | [] => false
  | (k, _) :: d' => String.eqb key k || dict_mem key d'
  end.

(** [d[key]] for a dict built by [dict(pairs)]: the value of the last pair
    with that key; [KeyError] when there is none. *)
Fixpoint dict_get (key : string) (d : list (string * json)) : res json :=
  match d with
  | [] => Err KeyError
  | (k, v) :: d' =>
      match dict_get key d' with
      | Ok v' => Ok v'
      | Err _ => if String.eqb key k then Ok v else Err KeyError
      end
  end.

(** ** [json.loads]

    The decoder of Python's [json] package ([json/decoder.py],
    [json/scanner.py]) with its default settings: strict strings, no hooks,
    [NaN] and the infinities accepted. Positions in the text are kept as
    the suffix that remains to be read. The interpreter's limit on the
    depth of recursion, which a text nested some thousand levels deep
    would meet, is not modelled. *)

Local Open Scope char_scope.

(** [WHITESPACE_STR = ' \t\n\r'] *)
Definition is_ws (c : ascii) : bool :=
  match c with
  | " " | "009" | "010" | "013" => true
  | _ => false
  end.

(** [WHITESPACE.match(s, idx).end()] *)
Fixpoint skip_ws (s : string) : string :=
  match s with
  | String c r => if is_ws c then skip_ws r else s
  | EmptyString => EmptyString
  end.

(** [s[idx:idx + len(p)] == p]; the text after [p] when it holds. *)
Fixpoint strip_prefix (p s : string) : option string :=
  match p, s with
  | EmptyString, _ => Some s
  | String a p', String b s' => if Ascii.eqb a b then strip_prefix p' s' else None
  | String _ _, EmptyString => None
  end.

Definition is_digit (c : ascii) : bool :=
  (48 <=? N_of_ascii c)%N && (N_of_ascii c <=? 57)%N.

Definition digit_val (c : ascii) : Z := Z.of_N (N_of_ascii c) - 48.

(** The longest run of digits and what follows it. *)
Fixpoint span_digits (s : string) : string * string :=
  match s with
  | String c r =>
      if is_digit c
      then let (d, r') := span_digits r in (String c d, r')
      else (EmptyString, s)
  | EmptyString => (EmptyString, EmptyString)
  end.

(** The first group of [NUMBER_RE]: an optional minus sign, then either a
    single [0] or a digit from 1 to 9 followed by any run of digits. *)
Definition scan_integer (s : string) : option (string * string) :=
  let (sign, s1) :=
    match s with
    | String "-" r => (String "-" EmptyString, r)
    | _ => (EmptyString, s)
    end in
  match s1 with
  | String "0" r => Some (String.append sign (String "0" EmptyString), r)
  | String c r =>
      if is_digit c
      then let (d, r') := span_digits r in Some (String.append sign (String c d), r')
      else None
  | EmptyString => None
  end.

(** The second group of [NUMBER_RE]: a dot and at least one digit, or
    nothing. *)
Definition scan_frac (s : string) : string * string :=
  match s with
  | String "." r =>
      match span_digits r with
      | (EmptyString, _) => (EmptyString, s)
      | (d, r') => (String "." d, r')
      end
  | _ => (EmptyString, s)
  end.

(** The third group of [NUMBER_RE]: [e] or [E], an optional sign and at
    least one digit, or nothing. *)
Definition scan_exp (s : string) : string * string :=
  match s with
  | String e r =>
      if Ascii.eqb e "e" || Ascii.eqb e "E" then
        let (sign, r1) :=
          match r with
          | String "-" r' => (String "-" EmptyString, r')
          | String "+" r' => (String "+" EmptyString, r')
          | _ => (EmptyString, r)
          end in
        match span_digits r1 with
        | (EmptyString, _) => (EmptyString, s)
        | (d, r') => (String e (String.append sign d), r')
        end
      else (EmptyString, s)
  | EmptyString => (EmptyString, s)
  end.

(** [int(lexeme)] for the lexemes [scan_integer] returns. *)
Fixpoint int_of_digits (acc : Z) (s : string) : Z :=
  match s with
  | String c r => int_of_digits (10 * acc + digit_val c)%Z r
  | EmptyString => acc
  end.

Definition parse_int (lexeme : string) : Z :=
  match lexeme with
  | String "-" r => (- int_of_digits 0 r)%Z
  | _ => int_of_digits 0 lexeme
  end.

(** [sys.int_info.default_max_str_digits]: since Python 3.11 [int(lexeme)]
    raises [ValueError] on more digits than this, and [json.loads] with
    it. *)
Definition max_str_digits : nat := 4300.

Definition sign_length (lexeme : string) : nat :=
  match lexeme with
  | String "-" _ => 1
  | _ => 0
  end.

(** Numbers: an [int] when the match has neither fraction nor exponent, a
    [float] otherwise. [None] is "no number here" and also the [ValueError]
    of an integer too long to convert; both end [json.loads] with an
    exception that the callers treat alike. *)
Definition scan_number (s : string) : option (json * string) :=
  match scan_integer s with
  | None => None
  | Some (integer, r) =>
      let (frac, r1) := scan_frac r in
      let (exp, r2) := scan_exp r1 in
      match frac, exp with
      | EmptyString, EmptyString =>
          if (max_str_digits <? String.length integer - sign_length integer)%nat
          then None
          else Some (JInt (parse_int integer), r2)
      | _, _ => Some (JFloat (String.append integer (String.append frac exp)), r2)
      end
  end.

(** *** Strings *)

(** What a string literal is made of: a byte taken as it is (or produced
    by a simple escape), or the 16-bit value of a [\uXXXX] escape. *)
Inductive code_unit : Type :=
  | Byte (c : ascii)
  | Escape (u : N).

Definition hex_val (c : ascii) : option N :=
  let n := N_of_ascii c in
  if (48 <=? n)%N && (n <=? 57)%N then Some (n - 48)%N
  else if (65 <=? n)%N && (n <=? 70)%N then Some (n - 55)%N
  else if (97 <=? n)%N && (n <=? 102)%N then Some (n - 87)%N
  else None.

(** [_decode_uXXXX]: four hexadecimal digits. *)
Definition hex4 (a b c d : ascii) : option N :=
  match hex_val a, hex_val b, hex_val c, hex_val d with
  | Some x, Some y, Some z, Some w => Some (((x * 16 + y) * 16 + z) * 16 + w)%N
  | _, _, _, _ => None
  end.

(** The [BACKSLASH] table. *)
Definition simple_escape (c : ascii) : option ascii :=
  match c with
  | "034" => Some "034"
  | "\" => Some "\"
  | "/" => Some "/"
  | "b" => Some "008"
  | "f" => Some "012"
  | "n" => Some "010"
  | "r" => Some "013"
  | "t" => Some "009"
  | _ => None
  end.

(** [scanstring], first half: read up to the closing quote. [None] stands
    for its [JSONDecodeError]s: unterminated string, control character,
    invalid escape. *)
Fixpoint scan_units (s : string) : option (list code_unit * string) :=
  match s with
  | EmptyString => None
  | String c r =>
      if Ascii.eqb c "034" then Some ([], r)
      else if Ascii.eqb c "\" then
        match r with
        | EmptyString => None
        | String e r1 =>
            if Ascii.eqb e "u" then
              match r1 with
              | String h1 (String h2 (String h3 (String h4 r2))) =>
                  match hex4 h1 h2 h3 h4 with
                  | Some u =>
                      match scan_units r2 with
                      | Some (us, r') => Some (Escape u :: us, r')
                      | None => None
                      end
                  | None => None
                  end
              | _ => None
              end
            else
              match simple_escape e with
              | Some b =>
                  match scan_units r1 with
                  | Some (us, r') => Some (Byte b :: us, r')
                  | None => None
                  end
              | None => None
              end
        end
      else if (N_of_ascii c <? 32)%N then None
      else
        match scan_units r with
        | Some (us, r') => Some (Byte c :: us, r')
        | None => None
        end
  end.

Definition byte_of (n : N) : ascii := ascii_of_N n.

(** [chr(uni)], in UTF-8. A surrogate that found no partner stays a code
    point of its own in a Python string; it is written in the same
    three-byte form as the other code points below 0x10000. *)
Definition utf8 (cp : N) : string :=
  if (cp <? 128)%N then String (byte_of cp) EmptyString
  else if (cp <? 2048)%N then
    String (byte_of (192 + cp / 64))
      (String (byte_of (128 + cp mod 64)) EmptyString)
  else if (cp <? 65536)%N then
    String (byte_of (224 + cp / 4096))
      (String (byte_of (128 + (cp / 64) mod 64))
        (String (byte_of (128 + cp mod 64)) EmptyString))
  else
    String (byte_of (240 + cp / 262144))
      (String (byte_of (128 + (cp / 4096) mod 64))
        (String (byte_of (128 + (cp / 64) mod 64))
          (String (byte_of (128 + cp mod 64)) EmptyString))).

Definition is_high_surrogate (u : N) : bool := (55296 <=? u)%N && (u <=? 56319)%N.
Definition is_low_surrogate (u : N) : bool := (56320 <=? u)%N && (u <=? 57343)%N.

(** [scanstring], second half: a high surrogate escape directly followed
    by a low surrogate escape is one code point. *)
Fixpoint decode_units (us : list code_unit) : string :=
  match us with
  | [] => EmptyString
  | Byte c :: us' => String c (decode_units us')
  | Escape hi :: us' =>
      match us' with
      | Escape lo :: us'' =>
          if is_high_surrogate hi && is_low_surrogate lo
          then String.append
                 (utf8 (65536 + (N.lor (N.shiftl (hi - 55296) 10) (lo - 56320))))
                 (decode_units us'')
          else String.append (utf8 hi) (decode_units us')
      | _ => String.append (utf8 hi) (decode_units us')
      end
  end.

(** [scanstring(s, end)], called after the opening quote. *)
Definition scanstring (s : string) : option (string * string) :=
  match scan_units s with
  | Some (us, r) => Some (decode_units us, r)
  | None => None
  end.

(** *** Values *)

(** The result of a scanner run with a bound on its recursion: the value
    and the rest of the text, a [JSONDecodeError], or the bound reached. *)
Inductive scan (A : Type) : Type :=
  | Scanned (a : A) (rest : string)
  | Invalid
  | OutOfFuel.
Arguments Scanned {A} a rest.
Arguments Invalid {A}.
Arguments OutOfFuel {A}.

(** The constants tried by [_scan_once] before and after numbers. *)
Definition scan_word (word : string) (value : json) (s : string) : option (json * string) :=
  match strip_prefix word s with
  | Some r => Some (value, r)
  | None => None
  end.

Definition scan_atom (s : string) : option (json * string) :=
  match scan_word "null" JNull s with Some x => Some x | None =>
  match scan_word "true" (JBool true) s with Some x => Some x | None =>
  match scan_word "false" (JBool false) s with Some x => Some x | None =>
  match scan_number s with Some x => Some x | None =>
  match scan_word "NaN" (JFloat "NaN") s with Some x => Some x | None =>
  match scan_word "Infinity" (JFloat "Infinity") s with Some x => Some x | None =>
  scan_word "-Infinity" (JFloat "-Infinity") s
  end end end end end end.

(** [_scan_once], [JSONArray] and [JSONObject]. [array_items] is the
    [while True] loop of [JSONArray], entered at a value; [object_members]
    is the loop of [JSONObject], entered after the opening quote of a
    key. *)
Fixpoint scan_once (fuel : nat) (s : string) {struct fuel} : scan json :=
  match fuel with
  | O => OutOfFuel
  | S fuel =>
      match s with
      | EmptyString => Invalid
      | String c r =>
          if Ascii.eqb c "034" then
            match scanstring r with
            | Some (k, r') => Scanned (JStr k) r'
            | None => Invalid
            end
          else if Ascii.eqb c "{" then
            match skip_ws r with
            | String "}" r' => Scanned (JObj []) r'
            | String "034" r' =>
                match object_members fuel r' with
                | Scanned ms r'' => Scanned (JObj ms) r''
                | Invalid => Invalid
                | OutOfFuel => OutOfFuel
                end
            | _ => Invalid
            end
          else if Ascii.eqb c "[" then
            match skip_ws r with
            | String "]" r' => Scanned (JArr []) r'
            | r' =>
                match array_items fuel r' with
                | Scanned vs r'' => Scanned (JArr vs) r''
                | Invalid => Invalid
                | OutOfFuel => OutOfFuel
                end
            end
          else
            match scan_atom s with
            | Some (v, r') => Scanned v r'
            | None => Invalid
            end
      end
  end
with array_items (fuel : nat) (s : string) {struct fuel} : scan (list json) :=
  match fuel with
  | O => OutOfFuel
  | S fuel =>
      match scan_once fuel s with
      | Scanned v r =>
          match skip_ws r with
          | String "]" r' => Scanned [v] r'
          | String "," r' =>
              match array_items fuel (skip_ws r') with
              | Scanned vs r'' => Scanned (v :: vs) r''
              | Invalid => Invalid
              | OutOfFuel => OutOfFuel
              end
          | _ => Invalid
          end
      | Invalid => Invalid
      | OutOfFuel => OutOfFuel
      end
  end
with object_members (fuel : nat) (s : string) {struct fuel}
    : scan (list (string * json)) :=
  match fuel with
  | O => OutOfFuel
  | S fuel =>
      match scanstring s with
      | None => Invalid
      | Some (k, r) =>
          match skip_ws r with
          | String ":" r1 =>
              match scan_once fuel (skip_ws r1) with
              | Scanned v r2 =>
                  match skip_ws r2 with
                  | String "}" r3 => Scanned [(k, v)] r3
                  | String "," r3 =>
                      match skip_ws r3 with
                      | String "034" r4 =>
                          match object_members fuel r4 with
                          | Scanned ms r5 => Scanned ((k, v) :: ms) r5
                          | Invalid => Invalid
                          | OutOfFuel => OutOfFuel
                          end
                      | _ => Invalid
                      end
                  | _ => Invalid
                  end
              | Invalid => Invalid
              | OutOfFuel => OutOfFuel
              end
          | _ => Invalid
          end
      end
  end.

(** A bound no text reaches: every second call reads a character. *)
Definition scan_fuel (s : string) : nat := 2 * String.length s + 2.

(** [JSONDecoder.raw_decode(s, idx)]: one value at the start of [s] and
    the text after it. *)
Definition raw_decode (s : string) : option (json * string) :=
  match scan_once (scan_fuel s) s with
  | Scanned v r => Some (v, r)
  | _ => None
  end.

(** [json.loads(s)], that is [JSONDecoder.decode]: skip white space,
    decode one value, skip white space; anything left is the
    [JSONDecodeError] ["Extra data"]. *)
Definition json_loads (s : string) : option json :=
  match raw_decode (skip_ws s) with
  | Some (v, r) =>
      match skip_ws r with
      | EmptyString => Some v
      | String _ _ => None
      end
  | None => None
  end.

Local Close Scope char_scope.

(** ** The response validator *)

(** Python's ["\n"]. *)
Definition nl : string := String "010" EmptyString.

(** A conversation is a list of role-tagged messages, the dictionaries
    [{"role": ..., "content": ...}] of the source. *)
Inductive role : Type := System | User | Assistant.

Record message : Type := Message { msg_role : role; msg_content : string }.

(** What one call of the chat collaborator gives: the text of the reply,
    or an exception (transport failure, bad status, a response of an
    unexpected shape). *)
Inductive exchange : Type :=
  | Reply (content : string)
  | Failure (e : exn).

(** How a call of [json_validated_response] ends: it returns the parsed
    reply; it gives up with its own
    [raise Exception("No valid JSON response found.")]; or an exception of
    the exchange leaves it. [Waiting] is the loop asking for an exchange
    beyond those listed in the script of the run: the call has not ended
    yet. *)
Inductive outcome : Type :=
  | Returned (j : json)
  | NoValidJSON
  | Raised (e : exn)
  | Waiting.

(** A run: how it ended, the conversation as the caller finds it (the
    list is mutated in place), the local counter [nb_retry] at the end, and
    the conversations that were handed to the chat collaborator, oldest
    first, one for each exchange. *)
Record run : Type := Run {
  result : outcome;
  messages_after : list message;
  retries_left : Z;
  sent : list (list message)
}.

(** One more exchange in front of the rest of a run. *)
Definition exchanged (messages : list message) (r : run) : run :=
  Run (result r) (messages_after r) (retries_left r) (messages :: sent r).

(** [content[content.index("["):]]; [None] is the [ValueError] of
    [str.index]. *)
Fixpoint from_bracket (content : string) : option string :=
  match content with
  | EmptyString => None
  | String c r => if Ascii.eqb c "[" then Some content else from_bracket r
  end.

(** The body of the [try]: slice at the first bracket, decode. [None] is
    the [ValueError] of [index] or the [JSONDecodeError] of [loads]. *)
Definition parse_reply (content : string) : option json :=
  match from_bracket content with
  | Some json_data => json_loads json_data
  | None => None
  end.

(** src/wolverine/wolverine.py. The parameter [model] is only passed on to
    the chat call and is left out; [chat] lists what the successive calls
    of [ollama.chat] give. *)
Module Wolverine.

Definition correction : message :=
  Message User
    "Your response could not be parsed by json.loads. Please restate it as valid pure JSON.".

Fixpoint json_validated_response (chat : list exchange)
    (messages : list message) (nb_retry : Z) : run :=
  if nb_retry =? 0 then Run NoValidJSON messages nb_retry []
  else
    match chat with
    | [] => Run Waiting messages nb_retry []
    | Failure e :: _ => Run (Raised e) messages nb_retry [messages]
    | Reply content :: chat' =>
        match parse_reply content with
        | Some json_response =>
            Run (Returned json_response) messages nb_retry [messages]
        | None =>
            exchanged messages
              (json_validated_response chat' (messages ++ [correction])
                 (if 0 <? nb_retry then nb_retry - 1 else nb_retry))
        end
    end.

End Wolverine.

(** src/tests/test_wolverine.py. Here the chat call is inside the [try].
    An exception of it that is a [ValueError] enters the first handler,
    which formats [content] before anything was assigned to it: the
    [UnboundLocalError] of that leaves the function. Any other exception
    is raised again by the second handler. Each retry is a recursive call;
    the interpreter's limit on the depth of recursion is not modelled. *)
Module TestWolverine.

Definition correction : message :=
  Message User
    "Your response could not be parsed by json.loads. Please restate your last message as pure JSON.".

Fixpoint json_validated_response (chat : list exchange)
    (messages : list message) (nb_retry : Z) : run :=
  if nb_retry =? 0 then Run NoValidJSON messages nb_retry []
  else
    match chat with
    | [] => Run Waiting messages nb_retry []
    | Failure e :: _ =>
        Run (Raised (if is_ValueError e then UnboundLocalError else e))
          messages nb_retry [messages]
    | Reply content :: chat' =>
        let messages1 := messages ++ [Message Assistant content] in
        match parse_reply content with
        | Some json_response =>
            Run (Returned json_response) messages1 nb_retry [messages]
        | None =>
            exchanged messages
              (json_validated_response chat' (messages1 ++ [correction])
                 (nb_retry - 1))
        end
    end.

End TestWolverine.

(** ** Python values and lists, as far as [apply_changes] uses them *)

(** [c[key]]: a dictionary is looked up; a list or a string indexed by a
    string, or a value without subscripts, is a [TypeError]. *)
Definition getitem (c : json) (key : string) : res json :=
  match c with
  | JObj d => dict_get key d
  | _ => Err TypeError
  end.

(** [needle in s] for two strings. *)
Fixpoint is_substring (needle s : string) : bool :=
  match strip_prefix needle s with
  | Some _ => true
  | None =>
      match s with
      | EmptyString => false
      | String _ r => is_substring needle r
      end
  end.

(** [v == key] for a JSON value and a string. *)
Definition str_eq (v : json) (key : string) : bool :=
  match v with
  | JStr s => String.eqb s key
  | _ => false
  end.

(** [key in c]: the keys of a dictionary, the items of a list, the
    substrings of a string; [TypeError] for a value that is no
    container. *)
Definition contains (key : string) (c : json) : res bool :=
  match c with
  | JObj d => Ok (dict_mem key d)
  | JArr items => Ok (existsb (λ v, str_eq v key) items)
  | JStr s => Ok (is_substring key s)
  | _ => Err TypeError
  end.

(** A value usable as a list index: an [int], or a [bool], which is one. *)
Definition int_key (v : json) : option Z :=
  match v with
  | JInt z => Some z
  | JBool b => Some (Z.b2z b)
  | _ => None
  end.

Definition as_index (v : json) : res Z :=
  match int_key v with
  | Some z => Ok z
  | None => Err TypeError
  end.

(** [content + "\n"] *)
Definition add_newline (content : json) : res string :=
  match content with
  | JStr s => Ok (String.append s nl)
  | _ => Err TypeError
  end.

(** [sys.maxsize] of a 64-bit build: the largest index and the largest
    length of a list. *)
Definition PY_SSIZE_T_MAX : Z := 2 ^ 63 - 1.

(** A list that Python can hold. *)
Definition py_list {A : Type} (l : list A) : Prop :=
  Z.of_nat (length l) ≤ PY_SSIZE_T_MAX.

Section PyList.
Context {A : Type}.

(** The position [l[i]] denotes: a negative index counts from the end;
    outside the list it is an [IndexError]. *)
Definition list_index (l : list A) (i : Z) : res nat :=
  let n := Z.of_nat (length l) in
  let j := if i <? 0 then i + n else i in
  if (j <? 0) || (n <=? j) then Err IndexError else Ok (Z.to_nat j).

(** [l[i] = v] *)
Definition list_setitem (l : list A) (i : Z) (v : A) : res (list A) :=
  k ← list_index l i; Ok (<[k := v]> l).

(** [del l[i]] *)
Definition list_delitem (l : list A) (i : Z) : res (list A) :=
  k ← list_index l i; Ok (delete k l).

(** [l.insert(i, v)]: the index is clamped to the list, after a negative
    one was counted from the end; an index that does not fit a
    [Py_ssize_t] is an [OverflowError]. *)
Definition list_insert (l : list A) (i : Z) (v : A) : res (list A) :=
  if (i <? - PY_SSIZE_T_MAX - 1) || (PY_SSIZE_T_MAX <? i) then Err OverflowError
  else
    let n := Z.of_nat (length l) in
    let j := if i <? 0 then Z.max 0 (i + n) else Z.min i n in
    Ok (take (Z.to_nat j) l ++ v :: drop (Z.to_nat j) l).

End PyList.

(** [list.sort(key=..., reverse=True)] on keys that are integers: a stable
    sort, largest key first; items with equal keys keep the order they had.
    [insert_desc] puts an item in front of the first one whose key is not
    larger. *)
Fixpoint insert_desc {A : Type} (kx : Z * A) (l : list (Z * A)) : list (Z * A) :=
  match l with
  | [] => [kx]
  | ky :: l' => if kx.1 <? ky.1 then ky :: insert_desc kx l' else kx :: l
  end.

Definition sort_desc {A : Type} (l : list (Z * A)) : list (Z * A) :=
  foldr insert_desc [] l.

(** [operation_changes.sort(key=lambda x: x["line"], reverse=True)]. The
    keys are computed first, for every item. Integer keys are sorted as
    above. A sort of at most one item compares nothing and accepts any
    key. With two items or more and a key that is no integer, Python's
    comparison of strings, floats and lists decides whether the sort
    raises; that comparison is not part of this embedding, which has
    [TypeError] there (the exception of every comparison that involves
    [None], a dictionary, or an integer with a string or a list). *)
Definition sort_by_line_reverse (operation_changes : list json) : res (list json) :=
  keys ← try_map (λ x, getitem x "line") operation_changes;
  match mapM int_key keys with
  | Some zs => Ok (sort_desc (zip zs operation_changes)).*2
  | None =>
      if (length operation_changes <=? 1)%nat then Ok operation_changes
      else Err TypeError
  end.

(** ** The patch engine *)

(** [[f(x) for x in l if p(x)]] *)
Fixpoint try_filter_map {A B : Type} (p : A → res bool) (f : A → res B)
    (l : list A) : res (list B) :=
  match l with
  | [] => Ok []
  | x :: l' =>
      p x ≫= λ b : bool,
        if b then y ← f x; ys ← try_filter_map p f l'; Ok (y :: ys)
        else try_filter_map p f l'
  end.

(** The body of the loop [for change in operation_changes]. *)
Definition apply_change (file_lines : list string) (change : json)
    : res (list string) :=
  operation ← getitem change "operation";
  line ← getitem change "line";
  content ← getitem change "content";
  if str_eq operation "Replace" then
    v ← add_newline content;
    i ← as_index line;
    list_setitem file_lines (i - 1) v
  else if str_eq operation "Delete" then
    i ← as_index line;
    list_delitem file_lines (i - 1)
  else if str_eq operation "InsertAfter" then
    v ← add_newline content;
    i ← as_index line;
    list_insert file_lines i v
  else Ok file_lines.

(** [apply_changes], the same text in src/wolverine/wolverine.py and in
    src/tests/test_wolverine.py, with [confirm=False] as [main] calls it by
    default. [original_file_lines] is what [readlines] gave; the result is
    the list handed to [writelines]. An exception leaves the function
    before the file is opened for writing. The explanations and the diff
    are only printed; the explanations are still computed, since that may
    raise. *)
Definition apply_changes (original_file_lines : list string)
    (changes : list json) : res (list string) :=
  operation_changes ← try_filter (contains "operation") changes;
  explanations ←
    try_filter_map (contains "explanation") (λ c, getitem c "explanation") changes;
  operation_changes ← sort_by_line_reverse operation_changes;
  try_fold apply_change operation_changes original_file_lines.

(** The lines of the file once [apply_changes] is over: what was written,
    or what was there when an exception came first. *)
Definition file_after (original_file_lines : list string) (changes : list json)
    : list string :=
  match apply_changes original_file_lines changes with
  | Ok file_lines => file_lines
  | Err _ => original_file_lines
  end.

(** ** Vocabulary of the statements *)

(** A reply the [try] body fails on: no bracket, or [json.loads] raises. *)
Definition unparseable (content : string) : Prop := parse_reply content = None.

(** The conversations src/wolverine/wolverine.py hands to the chat call
    while [k] replies in a row fail to parse, starting from [messages]. *)
Fixpoint wolverine_conversations (messages : list message) (k : nat)
    : list (list message) :=
  match k with
  | O => []
  | S k' =>
      messages :: wolverine_conversations (messages ++ [Wolverine.correction]) k'
  end.

(** The turns src/tests/test_wolverine.py appends for one reply that fails
    to parse: the reply itself, then the request to restate it. *)
Definition failed_turns (content : string) : list message :=
  [Message Assistant content; TestWolverine.correction].

(** The conversations src/tests/test_wolverine.py hands to the chat call
    while the replies [replies] fail to parse one after the other. *)
Fixpoint test_conversations (messages : list message) (replies : list string)
    : list (list message) :=
  match replies with
  | [] => []
  | content :: replies' =>
      messages :: test_conversations (messages ++ failed_turns content) replies'
  end.

(** The counter after [k] failed replies, started at [n]: untouched when
    negative in src/wolverine/wolverine.py, decremented always in
    src/tests/test_wolverine.py. *)
Definition wolverine_counter (n : Z) (k : nat) : Z :=
  if n <? 0 then n else n - Z.of_nat k.

Definition test_counter (n : Z) (k : nat) : Z := n - Z.of_nat k.

(** An object of a batch that is commentary: a dictionary without the key
    ["operation"]. *)
Definition is_commentary (c : json) : Prop :=
  ∃ d, c = JObj d ∧ dict_mem "operation" d = false.

(** An object of a batch that the loop of [apply_changes] reads as an edit:
    its three fields, the line an integer. *)
Definition has_fields (c : json) (operation : json) (line : Z) (content : json)
    : Prop :=
  getitem c "operation" = Ok operation ∧
  (∃ v, getitem c "line" = Ok v ∧ int_key v = Some line) ∧
  getitem c "content" = Ok content.

(** [operation] is one of the two operations that use [content]. *)
Definition writes_content (operation : json) : bool :=
  str_eq operation "Replace" || str_eq operation "InsertAfter".

(** An edit within a buffer of [n] lines whose content is a string when it
    is used. *)
Definition edit_within (n : nat) (c : json) : Prop :=
  ∃ operation line content,
    has_fields c operation line content ∧
    1 ≤ line ≤ Z.of_nat n ∧
    (writes_content operation = true → ∃ s, content = JStr s).

(** The line an object addresses, when it has one. *)
Definition line_of (c : json) : option Z :=
  match getitem c "line" with
  | Ok v => int_key v
  | Err _ => None
  end.

(** [c] passes the filter ["operation" in c]. *)
Definition has_operation (c : json) : bool :=
  match contains "operation" c with
  | Ok b => b
  | Err _ => false
  end.

(** The text a [Replace] or an [InsertAfter] puts into the buffer. *)
Definition text_of (c : json) : string :=
  match getitem c "content" with
  | Ok (JStr s) => String.append s nl
  | _ => EmptyString
  end.

(** Section 4.2 of the specification, per-operation semantics: what one
    line of the original buffer becomes under the operation that addresses
    it; the text put in is the content with its line terminator. *)
Definition edited_line (c : json) (old : string) : list string :=
  match getitem c "operation" with
  | Ok operation =>
      if str_eq operation "Replace" then [text_of c]
      else if str_eq operation "Delete" then []
      else if str_eq operation "InsertAfter" then [old; text_of c]
      else [old]
  | Err _ => [old]
  end.

(** The operation of a batch that addresses the 1-based line [i]. *)
Definition addressing (i : Z) (ops : list json) : option json :=
  List.find (λ c, bool_decide (line_of c = Some i)) ops.

(** What the walk over the original lines makes of line [i] (counted from
    0) under the operations [ops]. *)
Definition rewritten (ops : list json) (i : nat) (old : string) : list string :=
  match addressing (Z.of_nat i + 1) ops with
  | Some c => edited_line c old
  | None => [old]
  end.

(** The specification's reading of a batch, all operations at once against
    the original numbering: walk the original lines and let each become
    what the operation addressing it says; a line no operation addresses
    stays. Objects without an operation are no edits. *)
Definition simultaneous (original : list string) (changes : list json)
    : list string :=
  let ops := filter (λ c, has_operation c = true) changes in
  concat (imap (rewritten ops) original).

(** The lines the edits of a batch address. *)
Definition addressed_lines (changes : list json) : list Z :=
  omap line_of (filter (λ c, has_operation c = true) changes).

(** The order [list.sort(reverse=True)] leaves the keys in, and its strict
    form when no two keys are equal. *)
Definition key_ge {A : Type} (a b : Z * A) : Prop := b.1 ≤ a.1.
Definition key_gt {A : Type} (a b : Z * A) : Prop := b.1 < a.1.

(** The operations of a batch next to their sort keys. *)
Definition keyed (ops : list json) : list (Z * json) :=
  (λ c, (default 0 (line_of c), c)) <$> ops.

(** [a] addresses a line further down the file than [b]. *)
Definition below (a b : json) : Prop :=
  ∃ za zb, line_of a = Some za ∧ line_of b = Some zb ∧ zb < za.

(** A JSON object, a Python [dict]. *)
Definition is_dict (c : json) : Prop := ∃ d, c = JObj d.

(** Notation for the examples: a line of text with its terminator, an edit
    object with its three fields, one without ["content"], and a text
    between double quotes. *)
Definition ln (s : string) : string := String.append s nl.

Definition edit (operation : string) (line : Z) (content : json) : json :=
  JObj [("operation"%string, JStr operation); ("line"%string, JInt line);
        ("content"%string, content)].

Definition edit_without_content (operation : string) (line : Z) : json :=
  JObj [("operation"%string, JStr operation); ("line"%string, JInt line)].

Definition quoted (s : string) : string :=
  String "034" (String.append s (String "034" EmptyString)).

(** ** More vocabulary for the patch engine *)

(** [c["operation"] == kind], for an object that has the key. *)
Definition is_kind (kind : string) (c : json) : bool :=
  match getitem c "operation" with
  | Ok operation => str_eq operation kind
  | Err _ => false
  end.

(** How many objects of a batch are operations of that kind. *)
Definition count_kind (kind : string) (changes : list json) : nat :=
  length (filter (λ c, is_kind kind c = true) changes).

(** The position [l[line - 1]] denotes in a list of [n] items, with
    Python's counting from the end below zero. *)
Definition index_of_line (n : nat) (line : Z) : Z :=
  if line - 1 <? 0 then line - 1 + Z.of_nat n else line - 1.

(** A JSON value that is no container: [None], a [bool], a number. *)
Definition is_scalar (c : json) : bool :=
  match c with
  | JNull | JBool _ | JInt _ | JFloat _ => true
  | _ => false
  end.

(** An operation whose name is none of the three the loop knows. *)
Definition unknown_operation (c : json) : Prop :=
  ∃ operation line content,
    has_fields c operation line content ∧
    str_eq operation "Replace" = false ∧
    str_eq operation "Delete" = false ∧
    str_eq operation "InsertAfter" = false.

(** The order the sort leaves two operations in: the line of the first
    is not smaller. *)
Definition not_above (a b : json) : Prop :=
  ∃ za zb, line_of a = Some za ∧ line_of b = Some zb ∧ zb ≤ za.

(** ** The limits of the interpreter

    The interpreter stops a recursion that goes deeper than its limit
    (1000 nested calls unless the program sets another, and neither file
    does) with a [RecursionError]: the decoder of [json] meets it on a
    text that nests arrays and objects too deep, and
    src/tests/test_wolverine.py, where each retry is a call inside the
    call before, meets it after too many retries. Text that the encoding
    in use cannot represent stops [print], [readlines] and [writelines]
    with a [UnicodeError]. The definitions above have neither. What
    follows are the bounds within which that makes no difference, and the
    recursive retries with their limit. *)

(** A depth of nested containers that the default limit leaves room for
    when the decoder is called from the loop of src/wolverine/wolverine.py
    or from a call of src/tests/test_wolverine.py that has room for its
    [try] body: the decoder takes a few calls for each level, also where
    it runs without its C part. *)
Definition recursion_room : nat := 100.

(** A bound on the depth the decoder reaches in a text: the number of
    opening brackets and braces of the text. *)
Fixpoint nesting (s : string) : nat :=
  match s with
  | EmptyString => 0
  | String c r =>
      (if Ascii.eqb c "[" || Ascii.eqb c "{" then 1 else 0) + nesting r
  end%nat.

Definition shallow (content : string) : bool :=
  (nesting content <=? recursion_room)%nat.

(** Text of ASCII characters only: every encoding in use reads it, prints
    it and writes it. *)
Definition plain_char (c : ascii) : bool :=
  match c with
  | Ascii _ _ _ _ _ _ _ b7 => negb b7
  end.

Fixpoint plain (s : string) : bool :=
  match s with
  | EmptyString => true
  | String c r => plain_char c && plain r
  end.

(** A JSON value whose texts, keys included, are plain. *)
Fixpoint plain_json (j : json) : bool :=
  match j with
  | JNull | JBool _ | JInt _ => true
  | JFloat lexeme => plain lexeme
  | JStr s => plain s
  | JArr items => forallb plain_json items
  | JObj members => forallb (λ '(key, value), plain key && plain_json value) members
  end.

(** A reply that the limits do not reach: shallow for the decoder, plain
    for the [cprint] of the reply that failed to parse. *)
Definition tame (content : string) : bool := shallow content && plain content.

(** An exchange that is an exception, or a reply that is tame. *)
Definition tame_exchange (x : exchange) : bool :=
  match x with
  | Reply content => tame content
  | Failure _ => true
  end.

(** A run under the limit on recursion: it ends as the definitions above
    have it, or the interpreter ends it with a [RecursionError]. *)
Inductive limited : Type :=
  | Within (r : run)
  | RecursionError.

Definition exchanged_within (messages : list message) (l : limited) : limited :=
  match l with
  | Within r => Within (exchanged messages r)
  | RecursionError => RecursionError
  end.

(** [json_validated_response] of src/tests/test_wolverine.py with the
    limit. Each retry is the call [return json_validated_response(...)]
    inside the handler of the call before. [frames] is the number of
    calls of the function, one inside the other, for whose [try] body
    (the chat call, the decoding and the printing of a tame reply) the
    interpreter has room. A call beyond them still tests [nb_retry] and
    raises the exception of the exhausted budget; its chat call raises
    [RecursionError], which the second handler raises again and which no
    handler of the calls around it catches, since each of them is inside
    its own first handler by then. *)
Module TestWolverineRec.

Fixpoint json_validated_response (frames : nat) (chat : list exchange)
    (messages : list message) (nb_retry : Z) : limited :=
  if nb_retry =? 0 then Within (Run NoValidJSON messages nb_retry [])
  else
    match frames with
    | O => RecursionError
    | S frames' =>
        match chat with
        | [] => Within (Run Waiting messages nb_retry [])
        | Failure e :: _ =>
            Within (Run (Raised (if is_ValueError e then UnboundLocalError else e))
                      messages nb_retry [messages])
        | Reply content :: chat' =>
            let messages1 := messages ++ [Message Assistant content] in
            match parse_reply content with
            | Some json_response =>
                Within (Run (Returned json_response) messages1 nb_retry [messages])
            | None =>
                exchanged_within messages
                  (json_validated_response frames' chat'
                     (messages1 ++ [TestWolverine.correction]) (nb_retry - 1))
            end
        end
    end.

End TestWolverineRec.

(** ** Files, the target process and the session

    The rest of the two files: the text-mode reading and writing around
    [apply_changes], its confirmation gate, [run_script],
    [send_error_to_gpt] / [send_error_to_llama] and [main]. A file is the
    text written to it; the model is that of a POSIX build, where writing
    in text mode changes nothing and reading translates the line ends.
    Printing is left out, and with it the [UnicodeError] of a text that
    cannot be printed, read or written: see [plain]. *)

(** ["".join(parts)] *)
Definition join (parts : list string) : string :=
  foldr String.append EmptyString parts.

(** [str(n)] for a number that is not negative. *)
Definition str_of_nat (n : nat) : string :=
  NilZero.string_of_uint (Nat.to_uint n).

(** What text mode makes of the line ends when it reads: a carriage
    return, with or without a line feed after it, becomes a line feed. *)
Fixpoint universal_newlines (s : string) : string :=
  match s with
  | EmptyString => EmptyString
  | String c r =>
      if Ascii.eqb c "013" then
        String "010"
          match r with
          | String c' r' =>
              if Ascii.eqb c' "010" then universal_newlines r'
              else universal_newlines r
          | EmptyString => EmptyString
          end
      else String c (universal_newlines r)
  end.

(** The lines of a text, each with its line feed; the last one has none
    when the text does not end in one. *)
Fixpoint split_lines (s : string) : list string :=
  match s with
  | EmptyString => []
  | String c r =>
      if Ascii.eqb c "010" then String c EmptyString :: split_lines r
      else
        match split_lines r with
        | [] => [String c EmptyString]
        | line :: lines => String c line :: lines
        end
  end.

(** Whether a text holds a carriage return. *)
Fixpoint has_cr (s : string) : bool :=
  match s with
  | EmptyString => false
  | String c r => Ascii.eqb c "013" || has_cr r
  end.

(** [open(path).readlines()] and [open(path, "w").writelines(lines)], on
    the content of the file, for a text that the encoding in use reads
    and writes (a [plain] one is). *)
Definition readlines (content : string) : list string :=
  split_lines (universal_newlines content).

Definition writelines (file_lines : list string) : string := join file_lines.

(** The lines of a list but the last end in a line feed, as those that
    [readlines] gives do. *)
Definition lines_closed (file_lines : list string) : Prop :=
  ∀ i l, file_lines !! i = Some l → (S i < length file_lines)%nat →
    ∃ b, l = String.append b nl.

(** The files by their paths. *)
Abbreviation files := (gmap string string).

(** How a call of one of the functions below ends: it returns; it leaves
    through [sys.exit]; an exception leaves it (one of [exn], the
    [FileNotFoundError] of [open] and [shutil.copy], the plain [Exception]
    of [json_validated_response], or one of the target process that is no
    [CalledProcessError]). [Unfinished] is a run that asks the world for
    more than the script of the run lists. *)
Inductive ending : Type :=
  | Return
  | SystemExit (code : Z)
  | Raise (e : exn)
  | FileNotFoundError
  | GaveUp
  | ProcessFailure
  | Unfinished.

(** [confirmation.lower() == "y"]: [Y] is the only other text that lower
    case turns into [y]. *)
Definition is_yes (confirmation : string) : bool :=
  String.eqb confirmation "y" || String.eqb confirmation "Y".

(** [apply_changes(file_path, changes, confirm)] as a whole: read the
    lines, apply the batch to them, ask when [confirm] is set, write.
    [confirmation] is what [input] returns when it is called. The
    explanations and the diff that are printed on the way are text that
    the terminal takes (a [plain] batch on a [plain] file is). *)
Definition apply_changes_on_disk (fs : files) (file_path : string)
    (changes : list json) (confirm : bool) (confirmation : string)
    : files * ending :=
  match fs !! file_path with
  | None => (fs, FileNotFoundError)
  | Some content =>
      match apply_changes (readlines content) changes with
      | Err e => (fs, Raise e)
      | Ok file_lines =>
          if confirm && negb (is_yes confirmation) then (fs, SystemExit 0)
          else (<[file_path := writelines file_lines]> fs, Return)
      end
  end.

(** [s.endswith(suffix)] *)
Definition ends_with (suffix s : string) : bool :=
  let n := String.length s in
  let k := String.length suffix in
  (k <=? n)%nat && String.eqb (String.substring (n - k) k s) suffix.

(** What [subprocess.check_output] meets: the process ran and exited with
    an output and a status, or an exception other than
    [CalledProcessError] (no interpreter, an output that is no UTF-8). *)
Inductive process : Type :=
  | Exited (output : string) (returncode : Z)
  | NotRun.

(** What the functions take from outside: the path of the interpreter,
    the system prompt read from prompt.txt, how Python formats the
    argument list inside the prompt, the retry budget that
    src/tests/test_wolverine.py reads from the environment, and what
    running a command line gives on the files as they are. The target
    process is taken to read the files only. *)
Record world : Type := World {
  sys_executable : string;
  SYSTEM_PROMPT : string;
  format_args : list string → string;
  VALIDATE_JSON_RETRY : Z;
  check_output : files → list string → process
}.

(** The command line of [run_script]; the arguments are texts already. *)
Definition subprocess_args (w : world) (script_name : string)
    (script_args : list string) : list string :=
  if ends_with ".py" script_name
  then sys_executable w :: script_name :: script_args
  else "node"%string :: script_name :: script_args.

(** [run_script]: the output and the status, 0 when [check_output]
    returns and the status of the [CalledProcessError] otherwise; [None]
    when another exception leaves it. *)
Definition run_script (w : world) (fs : files) (script_name : string)
    (script_args : list string) : option (string * Z) :=
  match check_output w fs (subprocess_args w script_name script_args) with
  | Exited output returncode => Some (output, returncode)
  | NotRun => None
  end.

(** The listing of the prompt: every line behind its number, counted
    from 1. *)
Definition file_with_lines (file_lines : list string) : string :=
  join (imap (λ i line,
                String.append (str_of_nat (i + 1)) (String.append ": " line))
          file_lines).

(** The three parts the two prompts share. *)
Definition prompt_body (w : world) (file_lines : list string)
    (args : list string) (error_message : string) : list string :=
  [ String.append "Here is the script that needs fixing:" (String.append nl nl);
    file_with_lines file_lines; nl; nl;
    String.append "Here are the arguments it was provided:" (String.append nl nl);
    format_args w args; nl; nl;
    String.append "Here is the error message:" (String.append nl nl);
    error_message; nl ].

(** The fix-and-rerun loop of [main], for either version: [send] is its
    [send_error_to_...]. Each turn of the loop that has to fix takes the
    exchanges of that turn's conversation with the model and the
    operator's answer from [cycles]. A value returned by the validator
    is an array (lemma [parse_reply_array]); the branch for another value is
    there for the match to be complete. *)
Fixpoint fix_loop (w : world)
    (send : files → string → list string → string → list exchange → option run)
    (script_name : string) (script_args : list string) (confirm : bool)
    (cycles : list (list exchange * string)) (fs : files) : files * ending :=
  match run_script w fs script_name script_args with
  | None => (fs, ProcessFailure)
  | Some (output, returncode) =>
      if returncode =? 0 then (fs, Return)
      else
        match cycles with
        | [] => (fs, Unfinished)
        | (chat, confirmation) :: cycles' =>
            match send fs script_name script_args output chat with
            | None => (fs, FileNotFoundError)
            | Some r =>
                match result r with
                | Returned (JArr changes) =>
                    match apply_changes_on_disk fs script_name changes
                            confirm confirmation with
                    | (fs', Return) =>
                        fix_loop w send script_name script_args confirm cycles' fs'
                    | stopped => stopped
                    end
                | Returned _ => (fs, Raise TypeError)
                | NoValidJSON => (fs, GaveUp)
                | Raised e => (fs, Raise e)
                | Waiting => (fs, Unfinished)
                end
            end
        end
  end.

(** [script_name + ".bak"] *)
Definition backup_of (script_name : string) : string :=
  String.append script_name ".bak".

(** [main] from [if revert:] on, for either version. *)
Definition session (w : world)
    (send : files → string → list string → string → list exchange → option run)
    (script_name : string) (script_args : list string) (revert confirm : bool)
    (cycles : list (list exchange * string)) (fs : files) : files * ending :=
  if revert then
    match fs !! backup_of script_name with
    | Some content => (<[script_name := content]> fs, SystemExit 0)
    | None => (fs, SystemExit 1)
    end
  else
    match fs !! script_name with
    | None => (fs, FileNotFoundError)
    | Some content =>
        fix_loop w send script_name script_args confirm cycles
          (<[backup_of script_name := content]> fs)
    end.

(** src/wolverine/wolverine.py *)
Module WolverineCLI.

Definition send_error_to_gpt (w : world) (fs : files) (file_path : string)
    (args : list string) (error_message : string) (chat : list exchange)
    : option run :=
  match fs !! file_path with
  | None => None
  | Some content =>
      let prompt :=
        join (prompt_body w (readlines content) args error_message ++
              ["Please provide your suggested changes in JSON format as described in the system prompt."%string]) in
      Some (Wolverine.json_validated_response chat
              [Message System (SYSTEM_PROMPT w); Message User prompt] (-1))
  end.

Definition main (w : world) (args : list string) (revert confirm : bool)
    (cycles : list (list exchange * string)) (fs : files) : files * ending :=
  match args with
  | [] => (fs, SystemExit 1)
  | script_name :: script_args =>
      session w (send_error_to_gpt w) script_name script_args revert confirm
        cycles fs
  end.

End WolverineCLI.

(** src/tests/test_wolverine.py *)
Module TestWolverineCLI.

Definition send_error_to_llama (w : world) (fs : files) (file_path : string)
    (args : list string) (error_message : string) (chat : list exchange)
    : option run :=
  match fs !! file_path with
  | None => None
  | Some content =>
      let prompt :=
        join (prompt_body w (readlines content) args error_message ++
              ["Please provide your suggested changes, and remember to stick to the exact format as described above."%string]) in
      Some (TestWolverine.json_validated_response chat
              [Message System (SYSTEM_PROMPT w); Message User prompt]
              (VALIDATE_JSON_RETRY w))
  end.

Definition main (w : world) (script_name : string) (script_args : list string)
    (revert confirm : bool) (cycles : list (list exchange * string))
    (fs : files) : files * ending :=
  session w (send_error_to_llama w) script_name script_args revert confirm
    cycles fs.

End TestWolverineCLI.

(** ** A session for the examples

    A script of one line with a parenthesis missing, an interpreter that
    accepts the corrected line only, and a reply that replaces line 1 by
    it. *)

Definition broken_script : string := ln "print(1".

Definition fixed_script : string := ln "print(1)".

Definition example_world (budget : Z) : world :=
  World "python3" "Fix the script." (λ _, "()"%string) budget
    (λ fs args,
       match args with
       | [_; script] =>
           match fs !! script with
           | Some text =>
               if String.eqb text fixed_script then Exited (ln "1") 0
               else Exited (ln "SyntaxError") 1
           | None => Exited (ln "No such file") 2
           end
       | _ => NotRun
       end).

Definition example_fix : string :=
  String.append "[{"
    (String.append (quoted "operation")
       (String.append ": "
          (String.append (quoted "Replace")
             (String.append ", "
                (String.append (quoted "line")
                   (String.append ": 1, "
                      (String.append (quoted "content")
                         (String.append ": "
                            (String.append (quoted "print(1)") "}]"))))))))).

Definition example_files : files := {[ "a.py"%string := broken_script ]}.

(** * Properties *)

(** ** The decoder reads on *)

Section DecoderProgress.

Implicit Types (s r : string) (v : json).

Lemma skip_ws_length s : (String.length (skip_ws s) ≤ String.length s)%nat.
Proof.
  induction s as [|c s IH]; simpl; [done|].
  destruct (is_ws c); simpl; lia.
Qed.

Lemma strip_prefix_length (p s r : string) :
  strip_prefix p s = Some r →
  (String.length r + String.length p = String.length s)%nat.
Proof.
  revert s. induction p as [|a p IH]; intros [|b s]; simpl; try done.
  - intros [= <-]. simpl. lia.
  - intros [= <-]. simpl. lia.
  - destruct (Ascii.eqb a b); [|done]. intros H%IH. lia.
Qed.

Lemma span_digits_length s (d r : string) :
  span_digits s = (d, r) → (String.length r ≤ String.length s)%nat.
Proof.
  revert d r. induction s as [|c s IH]; intros d r; simpl.
  - by intros [= <- <-].
  - destruct (is_digit c).
    + destruct (span_digits s) as [d' r'] eqn:H. intros [= <- <-].
      specialize (IH _ _ eq_refl). lia.
    + intros [= <- <-]. simpl. lia.
Qed.

Lemma scan_integer_length s (lexeme r : string) :
  scan_integer s = Some (lexeme, r) → (String.length r < String.length s)%nat.
Proof.
  unfold scan_integer. intros H.
  repeat case_match; simplify_eq; simpl;
    repeat match goal with
           | H : span_digits _ = _ |- _ => apply span_digits_length in H
           end; simpl in *; lia.
Qed.

Lemma scan_frac_length s (frac r : string) :
  scan_frac s = (frac, r) → (String.length r ≤ String.length s)%nat.
Proof.
  unfold scan_frac. intros H.
  repeat case_match; simplify_eq; simpl;
    repeat match goal with
           | H : span_digits _ = _ |- _ => apply span_digits_length in H
           end; simpl in *; lia.
Qed.

Lemma scan_exp_length s (exp r : string) :
  scan_exp s = (exp, r) → (String.length r ≤ String.length s)%nat.
Proof.
  unfold scan_exp. intros H.
  repeat case_match; simplify_eq; simpl;
    repeat match goal with
           | H : span_digits _ = _ |- _ => apply span_digits_length in H
           end; simpl in *; lia.
Qed.

Lemma scan_number_length s v r :
  scan_number s = Some (v, r) → (String.length r < String.length s)%nat.
Proof.
  unfold scan_number. intros H.
  destruct (scan_integer s) as [[integer r0]|] eqn:Hi; [|done].
  destruct (scan_frac r0) as [frac r1] eqn:Hf.
  destruct (scan_exp r1) as [exp r2] eqn:He.
  apply scan_integer_length in Hi. apply scan_frac_length in Hf.
  apply scan_exp_length in He.
  repeat case_match; simplify_eq; lia.
Qed.

Lemma scan_word_length (word : string) v s (v' : json) r :
  scan_word word v s = Some (v', r) →
  (String.length r + String.length word = String.length s)%nat.
Proof.
  unfold scan_word. destruct (strip_prefix word s) eqn:H; [|done].
  intros [= <- <-]. by apply strip_prefix_length.
Qed.

Lemma scan_atom_length s v r :
  scan_atom s = Some (v, r) → (String.length r < String.length s)%nat.
Proof.
  unfold scan_atom. intros H.
  repeat match type of H with
         | match ?x with _ => _ end = _ => destruct x as [[? ?]|] eqn:?
         end; simplify_eq;
    repeat match goal with
           | H : scan_word _ _ _ = Some _ |- _ =>
               apply scan_word_length in H; simpl in H
           | H : scan_number _ = Some _ |- _ => apply scan_number_length in H
           end; lia.
Qed.

End DecoderProgress.

Section DecoderFuel.

Implicit Types (s r : string) (v : json) (fuel : nat).

Lemma scan_units_length_le (n : nat) s (us : list code_unit) r :
  (String.length s ≤ n)%nat →
  scan_units s = Some (us, r) → (String.length r < String.length s)%nat.
Proof.
  revert s us r. induction n as [|n IH]; intros s us r Hn H;
    destruct s as [|c s]; simpl in *; try done; try lia.
  repeat case_match; simplify_eq; simpl in *;
    try match goal with
        | H : scan_units ?x = Some _ |- _ => apply IH in H; [|simpl in *; lia]
        end; simpl in *; lia.
Qed.

Lemma scanstring_length s (k r : string) :
  scanstring s = Some (k, r) → (String.length r < String.length s)%nat.
Proof.
  unfold scanstring. destruct (scan_units s) as [[us r']|] eqn:H; [|done].
  intros [= <- <-]. by eapply scan_units_length_le.
Qed.

Local Ltac use_skip_ws :=
  repeat match goal with
         | H : context [skip_ws ?x] |- _ =>
             lazymatch goal with
             | _ : (String.length (skip_ws x) ≤ String.length x)%nat |- _ => fail
             | _ => pose proof (skip_ws_length x)
             end
         end;
  repeat match goal with
         | H : skip_ws ?x = _ |- _ => rewrite H in *; clear H
         end.

(** Every value read takes at least one character. *)
Lemma scan_once_length fuel :
  (∀ s v r, scan_once fuel s = Scanned v r →
            (String.length r < String.length s)%nat) ∧
  (∀ s (vs : list json) r, array_items fuel s = Scanned vs r →
            (String.length r < String.length s)%nat) ∧
  (∀ s (ms : list (string * json)) r, object_members fuel s = Scanned ms r →
            (String.length r < String.length s)%nat).
Proof.
  induction fuel as [|fuel (IHv & IHa & IHo)]; [by repeat split|].
  split; [|split].
  - intros s v r. cbn [scan_once].
    destruct s as [|c s']; [done|].
    destruct (Ascii.eqb c "034").
    { destruct (scanstring s') as [[k r']|] eqn:Hk; [|done].
      intros [= <- <-]. apply scanstring_length in Hk. simpl. lia. }
    destruct (Ascii.eqb c "{").
    { intros H. repeat case_match; simplify_eq; use_skip_ws;
        try match goal with
            | H : object_members _ _ = Scanned _ _ |- _ => apply IHo in H
            end; simpl in *; lia. }
    destruct (Ascii.eqb c "[").
    { intros H. repeat case_match; simplify_eq; use_skip_ws;
        try match goal with
            | H : array_items _ _ = Scanned _ _ |- _ => apply IHa in H
            end; simpl in *; lia. }
    destruct (scan_atom _) as [[v' r']|] eqn:Ha; [|done].
    intros [= <- <-]. by apply scan_atom_length in Ha.
  - intros s vs r. cbn [array_items].
    destruct (scan_once fuel s) as [v r0| |] eqn:Hv; [|done..].
    apply IHv in Hv. intros H.
    repeat case_match; simplify_eq; use_skip_ws;
      try match goal with
          | H : array_items _ _ = Scanned _ _ |- _ => apply IHa in H
          end; use_skip_ws; simpl in *; lia.
  - intros s ms r. cbn [object_members].
    destruct (scanstring s) as [[k r0]|] eqn:Hk; [|done].
    apply scanstring_length in Hk. intros H.
    repeat case_match; simplify_eq; use_skip_ws;
      repeat match goal with
          | H : object_members _ _ = Scanned _ _ |- _ => apply IHo in H
          | H : scan_once _ _ = Scanned _ _ |- _ => apply IHv in H
          end; use_skip_ws; simpl in *; lia.
Qed.

Local Ltac use_length :=
  repeat match goal with
         | H : scan_once ?f _ = Scanned _ _ |- _ =>
             apply (proj1 (scan_once_length f)) in H
         | H : array_items ?f _ = Scanned _ _ |- _ =>
             apply (proj1 (proj2 (scan_once_length f))) in H
         | H : object_members ?f _ = Scanned _ _ |- _ =>
             apply (proj2 (proj2 (scan_once_length f))) in H
         | H : scanstring _ = Some _ |- _ => apply scanstring_length in H
         end.

(** Two units of the bound for each character are enough: the scanner
    never stops for want of it. *)
Lemma scan_once_fuel fuel :
  (∀ s, (2 * String.length s + 1 ≤ fuel)%nat → scan_once fuel s ≠ OutOfFuel) ∧
  (∀ s, (2 * String.length s + 2 ≤ fuel)%nat → array_items fuel s ≠ OutOfFuel) ∧
  (∀ s, (2 * String.length s + 2 ≤ fuel)%nat → object_members fuel s ≠ OutOfFuel).
Proof.
  induction fuel as [|fuel (IHv & IHa & IHo)];
    [repeat split; intros; lia|].
  split; [|split].
  - intros s Hs. cbn [scan_once].
    destruct s as [|c s']; [done|]. cbn [String.length] in Hs.
    destruct (Ascii.eqb c "034"); [by destruct (scanstring s') as [[??]|]|].
    destruct (Ascii.eqb c "{").
    { repeat case_match; simplify_eq; try done.
      match goal with
      | H : object_members _ ?x = OutOfFuel |- _ => apply (IHo x) in H; [done|]
      end.
      use_skip_ws. simpl in *. lia. }
    destruct (Ascii.eqb c "[").
    { repeat case_match; simplify_eq; try done;
        match goal with
        | H : array_items _ ?x = OutOfFuel |- _ => apply (IHa x) in H; [done|]
        end; use_skip_ws; simpl in *; lia. }
    by destruct (scan_atom _) as [[??]|].
  - intros s Hs. cbn [array_items].
    destruct (scan_once fuel s) as [v r0| |] eqn:Hv; [|done|].
    + repeat case_match; simplify_eq; try done.
      match goal with
      | H : array_items _ ?x = OutOfFuel |- _ => apply (IHa x) in H; [done|]
      end.
      use_length. use_skip_ws. simpl in *. lia.
    + apply IHv in Hv; [done|lia].
  - intros s Hs. cbn [object_members].
    destruct (scanstring s) as [[k r0]|] eqn:Hk; [|done].
    repeat case_match; simplify_eq; try done.
    + match goal with
      | H : object_members _ ?x = OutOfFuel |- _ => apply (IHo x) in H; [done|]
      end.
      use_length. use_skip_ws. simpl in *. lia.
    + match goal with
      | H : scan_once _ ?x = OutOfFuel |- _ => apply (IHv x) in H; [done|]
      end.
      use_length. use_skip_ws. simpl in *. lia.
Qed.

(** [raw_decode] fails only on a text that does not start with a JSON
    value. *)
Lemma raw_decode_None s :
  raw_decode s = None ↔ scan_once (scan_fuel s) s = Invalid.
Proof.
  unfold raw_decode.
  pose proof (proj1 (scan_once_fuel (scan_fuel s)) s) as Hfuel.
  destruct (scan_once (scan_fuel s) s); split; try done.
  intros _. exfalso. apply Hfuel; [|done]. unfold scan_fuel. lia.
Qed.

End DecoderFuel.

(** ** Sample values of the embedded library functions *)

Section Checks.

Example loads_array :
  json_loads "[1, -2 ,3 ]" = Some (JArr [JInt 1; JInt (-2); JInt 3]).
Proof. vm_compute. reflexivity. Qed.

Example loads_extra_data : json_loads "[1] trailing" = None.
Proof. vm_compute. reflexivity. Qed.

Example loads_trailing_white_space :
  json_loads (String.append "[1]  " nl) = Some (JArr [JInt 1]).
Proof. vm_compute. reflexivity. Qed.

Example loads_trailing_comma : json_loads "[1,]" = None.
Proof. vm_compute. reflexivity. Qed.

Example loads_leading_zero : json_loads "[01]" = None.
Proof. vm_compute. reflexivity. Qed.

Example loads_floats :
  json_loads "[1e5, 1E+5, 2e-3, NaN, -Infinity]"
  = Some (JArr [JFloat "1e5"; JFloat "1E+5"; JFloat "2e-3"; JFloat "NaN";
                JFloat "-Infinity"]).
Proof. vm_compute. reflexivity. Qed.

(** [json.loads('[{"a": 1, "a": 2}]')[0]["a"]] is [2]. *)
Example loads_duplicate_key :
  match json_loads (String.append "[{" (String.append (quoted "a")
          (String.append ": 1, " (String.append (quoted "a") ": 2}]")))) with
  | Some (JArr [c]) => getitem c "a"
  | _ => Err KeyError
  end = Ok (JInt 2).
Proof. vm_compute. reflexivity. Qed.

(** The two escapes of a surrogate pair are one code point, U+1F600, four
    bytes in UTF-8; the escape after them is a newline. *)
Example loads_surrogate_pair :
  json_loads (String.append "[" (String.append (quoted "\ud83d\ude00\n") "]"))
  = Some (JArr [JStr (String "240" (String "159" (String "152"
                  (String "128" nl))))]).
Proof. vm_compute. reflexivity. Qed.

Example insert_negative : list_insert [1; 2; 3] (-1) 9 = Ok [1; 2; 9; 3].
Proof. reflexivity. Qed.

Example setitem_negative : list_setitem [1; 2; 3] (-3) 9 = Ok [9; 2; 3].
Proof. reflexivity. Qed.

Example delitem_negative : list_delitem [1; 2; 3] (-1) = Ok [1; 2].
Proof. reflexivity. Qed.

Example setitem_outside : list_setitem [1; 2; 3] 3 9 = Err IndexError.
Proof. reflexivity. Qed.

(** [sorted] with [reverse=True] keeps equal keys in their order. *)
Example sort_desc_ties :
  sort_desc [(1, "a"); (2, "b"); (1, "c"); (2, "e")]%string
  = [(2, "b"); (2, "e"); (1, "a"); (1, "c")]%string.
Proof. reflexivity. Qed.

(** Two operations on one line: the one that comes first in the batch is
    applied first. *)
Example same_line_twice :
  apply_changes [ln "a"; ln "b"; ln "c"]
    [edit "Replace" 1 (JStr "p"); edit "Replace" 1 (JStr "q");
     edit "InsertAfter" 1 (JStr "r"); edit "InsertAfter" 1 (JStr "s")]
  = Ok [ln "q"; ln "s"; ln "r"; ln "b"; ln "c"].
Proof. reflexivity. Qed.

End Checks.

(** ** The retry loop *)

Section Validator.

Implicit Types (chat : list exchange) (messages : list message).
Implicit Types (n : Z) (replies : list string).




Lemma length_test_conversations messages replies :
  length (test_conversations messages replies) = length replies.
Proof. revert messages. induction replies; intros; simpl; auto. Qed.

(** While replies fail to parse and the budget lasts, each exchange adds
    the correction and the loop goes on from there. *)
Lemma wolverine_unparseable_prefix replies chat messages n :
  Forall unparseable replies →
  n < 0 ∨ Z.of_nat (length replies) ≤ n →
  Wolverine.json_validated_response ((Reply <$> replies) ++ chat) messages n
  = foldr exchanged
      (Wolverine.json_validated_response chat
         (messages ++ replicate (length replies) Wolverine.correction)
         (wolverine_counter n (length replies)))
      (wolverine_conversations messages (length replies)).
Proof.
  intros Hall. revert messages n.
  induction Hall as [|content replies Hc _ IH]; intros messages n Hn.
  - cbn [fmap list_fmap length replicate wolverine_conversations foldr app].
    rewrite app_nil_r. unfold wolverine_counter.
    destruct (n <? 0); [done|]. by rewrite Z.sub_0_r.
  - cbn [fmap list_fmap length replicate wolverine_conversations foldr app
           Wolverine.json_validated_response].
    cbn [length] in Hn.
    destruct (Z.eqb_spec n 0) as [->|Hn0]; [lia|].
    red in Hc. rewrite Hc.
    fold (@fmap list _ _ _ Reply replies).
    rewrite IH.
    + rewrite <- app_assoc. cbn [app].
      replace (wolverine_counter (if 0 <? n then n - 1 else n) (length replies))
        with (wolverine_counter n (S (length replies))); [done|].
      unfold wolverine_counter.
      destruct (Z.ltb_spec 0 n), (Z.ltb_spec n 0); try lia.
      destruct (Z.ltb_spec (n - 1) 0); lia.
    + destruct (Z.ltb_spec 0 n); lia.
Qed.

Lemma test_unparseable_prefix replies chat messages n :
  Forall unparseable replies →
  n < 0 ∨ Z.of_nat (length replies) ≤ n →
  TestWolverine.json_validated_response ((Reply <$> replies) ++ chat) messages n
  = foldr exchanged
      (TestWolverine.json_validated_response chat
         (messages ++ flat_map failed_turns replies)
         (test_counter n (length replies)))
      (test_conversations messages replies).
Proof.
  intros Hall. revert messages n.
  induction Hall as [|content replies Hc _ IH]; intros messages n Hn.
  - cbn [fmap list_fmap length flat_map test_conversations foldr app].
    rewrite app_nil_r. unfold test_counter. by rewrite Z.sub_0_r.
  - cbn [fmap list_fmap length flat_map test_conversations foldr app
           TestWolverine.json_validated_response].
    cbn [length] in Hn.
    destruct (Z.eqb_spec n 0) as [->|Hn0]; [lia|].
    red in Hc. rewrite Hc.
    fold (@fmap list _ _ _ Reply replies).
    rewrite <- !app_assoc. cbn [app].
    change (messages ++ Message Assistant content :: TestWolverine.correction
              :: flat_map failed_turns replies)
      with (messages ++ failed_turns content ++ flat_map failed_turns replies).
    rewrite app_assoc, IH by lia.
    unfold test_counter. do 3 f_equal. lia.
Qed.

Lemma result_exchanged_all (r : run) (convs : list (list message)) :
  result (foldr exchanged r convs) = result r.
Proof. induction convs; simpl; auto. Qed.



Lemma sent_exchanged_all (r : run) (convs : list (list message)) :
  sent (foldr exchanged r convs) = convs ++ sent r.
Proof. induction convs; simpl; [done|]. by f_equal. Qed.



(** A negative budget never reaches zero. *)
Lemma wolverine_unlimited chat messages n :
  n < 0 →
  result (Wolverine.json_validated_response chat messages n) ≠ NoValidJSON.
Proof.
  revert messages. induction chat as [|x chat IH]; intros messages Hn;
    cbn [Wolverine.json_validated_response];
    destruct (Z.eqb_spec n 0) as [->|Hn0]; try lia; [done|].
  destruct x as [content|e]; [|done].
  destruct (parse_reply content); [done|].
  cbn [exchanged result].
  destruct (Z.ltb_spec 0 n); [lia|]. by apply IH.
Qed.


(** With the budget unlimited, the first reply that parses is returned,
    however many replies failed before it. *)
Lemma unlimited_budget_returns replies content j chat messages :
  Forall unparseable replies →
  parse_reply content = Some j →
  result (Wolverine.json_validated_response
            ((Reply <$> replies) ++ Reply content :: chat) messages (-1))
  = Returned j ∧
  result (TestWolverine.json_validated_response
            ((Reply <$> replies) ++ Reply content :: chat) messages (-1))
  = Returned j.
Proof.
  intros Hall Hj. split.
  - rewrite wolverine_unparseable_prefix by (auto; lia).
    rewrite result_exchanged_all. unfold wolverine_counter.
    cbn [Wolverine.json_validated_response Z.ltb Z.compare Z.eqb].
    by rewrite Hj.
  - rewrite test_unparseable_prefix by (auto; lia).
    rewrite result_exchanged_all. unfold test_counter.
    cbn [TestWolverine.json_validated_response].
    destruct (Z.eqb_spec (-1 - Z.of_nat (length replies)) 0); [lia|].
    by rewrite Hj.
Qed.

End Validator.

(** ** The recursive retries and their limit *)

Section RecursiveRetries.

Implicit Types (chat : list exchange) (messages : list message).
Implicit Types (n : Z) (frames : nat) (replies : list string).


(** With room for one call more than there are exchanges, the limit is
    not met. *)
Lemma rec_enough frames chat messages n :
  (length chat < frames)%nat →
  TestWolverineRec.json_validated_response frames chat messages n
  = Within (TestWolverine.json_validated_response chat messages n).
Proof.
  revert frames messages n. induction chat as [|x chat IH];
    intros frames messages n Hlen; cbn [length] in Hlen;
    (destruct frames as [|frames]; [lia|]);
    cbn [TestWolverineRec.json_validated_response
         TestWolverine.json_validated_response];
    destruct (n =? 0); try done.
  destruct x as [content|e]; [|done].
  destruct (parse_reply content); [done|].
  rewrite IH by lia. done.
Qed.



End RecursiveRetries.

Section ValidatorClaims.

Implicit Types (chat : list exchange) (messages : list message).
Implicit Types (n N : Z) (replies : list string).






End ValidatorClaims.

Section ReplyParsing.

Implicit Types (chat : list exchange) (messages : list message) (n : Z).


(** What is decoded at a bracket is an array. *)
Lemma scan_once_bracket (fuel : nat) (body : string) (v : json) (rest : string) :
  scan_once fuel (String "[" body) = Scanned v rest → ∃ items, v = JArr items.
Proof.
  destruct fuel as [|fuel]; [done|].
  cbn [scan_once]. change (Ascii.eqb "[" "034") with false.
  change (Ascii.eqb "[" "{") with false. change (Ascii.eqb "[" "[") with true.
  cbv iota. intros H.
  repeat case_match; simplify_eq; eauto.
Qed.

Lemma raw_decode_bracket (body : string) (v : json) (rest : string) :
  raw_decode (String "[" body) = Some (v, rest) → ∃ items, v = JArr items.
Proof.
  unfold raw_decode. intros H.
  destruct (scan_once _ _) as [v' rest'| |] eqn:Hscan; simplify_eq.
  by eapply scan_once_bracket.
Qed.

(** [json.loads] on a slice that starts at a bracket: the value
    [raw_decode] finds, when only white space follows it. *)
Lemma json_loads_bracket (body : string) :
  json_loads (String "[" body)
  = match raw_decode (String "[" body) with
    | Some (v, rest) =>
        match skip_ws rest with
        | EmptyString => Some v
        | String _ _ => None
        end
    | None => None
    end.
Proof. reflexivity. Qed.





(** The turns src/tests/test_wolverine.py has appended before its exchange
    number [i]: each earlier reply as an assistant turn, each followed by
    the request to restate it. *)
Lemma test_conversations_lookup messages (replies : list string) (i : nat) :
  (i < length replies)%nat →
  test_conversations messages replies !! i
  = Some (messages ++ flat_map failed_turns (take i replies)).
Proof.
  revert messages i. induction replies as [|c replies IH]; intros messages i Hi.
  - simpl in Hi. lia.
  - destruct i as [|i]; cbn [test_conversations lookup list_lookup take flat_map].
    + by rewrite app_nil_r.
    + change ((messages :: test_conversations (messages ++ failed_turns c) replies)
                !! S i)
        with (test_conversations (messages ++ failed_turns c) replies !! i).
      rewrite IH by (simpl in Hi; lia). by rewrite <- app_assoc.
Qed.

(** The sibling version does what C5 says: the conversation of exchange
    [i] holds the replies of all exchanges before it, each as an assistant
    turn followed by the correction, and a reply that parses is appended
    too. *)
Lemma test_reply_recorded (replies : list string) chat messages n (i : nat) :
  Forall unparseable replies →
  n < 0 ∨ Z.of_nat (length replies) ≤ n →
  (i < length replies)%nat →
  sent (TestWolverine.json_validated_response ((Reply <$> replies) ++ chat)
          messages n) !! i
  = Some (messages ++ flat_map failed_turns (take i replies)).
Proof.
  intros Hall Hn Hi.
  rewrite test_unparseable_prefix, sent_exchanged_all by done.
  rewrite lookup_app_l by (by rewrite length_test_conversations).
  by apply test_conversations_lookup.
Qed.

Lemma test_parsed_reply_recorded (content : string) (j : json) chat messages n :
  n ≠ 0 →
  parse_reply content = Some j →
  messages_after
    (TestWolverine.json_validated_response (Reply content :: chat) messages n)
  = messages ++ [Message Assistant content].
Proof.
  intros Hn Hj. cbn [TestWolverine.json_validated_response].
  destruct (Z.eqb_spec n 0); [done|]. by rewrite Hj.
Qed.

(** src/wolverine/wolverine.py never appends anything but its correction:
    no reply of the model enters the conversation. *)
Lemma wolverine_appends_corrections_only chat messages n :
  ∃ k, messages_after (Wolverine.json_validated_response chat messages n)
       = messages ++ replicate k Wolverine.correction.
Proof.
  revert messages n. induction chat as [|x chat IH]; intros messages n;
    cbn [Wolverine.json_validated_response].
  - exists 0%nat. rewrite app_nil_r. by destruct (n =? 0).
  - destruct (n =? 0); [exists 0%nat; by rewrite app_nil_r|].
    destruct x as [content|e]; [|exists 0%nat; by rewrite app_nil_r].
    destruct (parse_reply content); [exists 0%nat; by rewrite app_nil_r|].
    destruct (IH (messages ++ [Wolverine.correction])
                (if 0 <? n then n - 1 else n)) as [k Hk].
    exists (S k). cbn [exchanged messages_after]. rewrite Hk.
    by rewrite <- app_assoc.
Qed.

(** C5, on src/wolverine/wolverine.py. The first reply fails to parse; the
    conversation handed to the model on the retry is the first one with
    the correction appended and nothing else: the reply the correction
    speaks of is not in it, nor in the conversation the caller is left
    with. src/tests/test_wolverine.py, run on the same exchanges, has the
    reply there as an assistant turn. *)
Theorem wolverine_reply_not_recorded :
  let start := [Message System "system prompt"; Message User "script and error"] in
  let chat := [Reply "I think line 3 is wrong."; Reply "[]"] in
  let r := Wolverine.json_validated_response chat start (-1) in
  let r' := TestWolverine.json_validated_response chat start (-1) in
  result r = Returned (JArr []) ∧
  sent r = [start; start ++ [Wolverine.correction]] ∧
  messages_after r = start ++ [Wolverine.correction] ∧
  sent r' = [start;
             start ++ [Message Assistant "I think line 3 is wrong.";
                       TestWolverine.correction]].
Proof. vm_compute. repeat split. Qed.

End ReplyParsing.

(** ** Dictionaries and comprehensions *)

Section Dictionaries.

Implicit Types (d : list (string * json)) (c : json) (key : string).

Lemma dict_get_mem key d (v : json) : dict_get key d = Ok v → dict_mem key d = true.
Proof.
  induction d as [|[k w] d IH]; cbn [dict_get dict_mem]; [done|].
  destruct (dict_get key d) as [v'|e].
  - intros [= ->]. rewrite IH by done. by rewrite orb_true_r.
  - destruct (String.eqb key k); [done|discriminate].
Qed.

Lemma dict_mem_get key d : dict_mem key d = true → ∃ v, dict_get key d = Ok v.
Proof.
  induction d as [|[k w] d IH]; cbn [dict_get dict_mem]; [done|].
  intros H. destruct (dict_get key d) as [v'|e]; [eauto|].
  destruct (String.eqb key k); [eauto|].
  destruct (IH H) as [? ?]. done.
Qed.

Lemma dict_get_not_mem key d : dict_mem key d = false → dict_get key d = Err KeyError.
Proof.
  induction d as [|[k w] d IH]; cbn [dict_get dict_mem]; [done|].
  intros [H1 H2]%orb_false_elim. by rewrite IH, H1.
Qed.

Lemma getitem_Ok key c (v : json) :
  getitem c key = Ok v → ∃ d, c = JObj d ∧ dict_mem key d = true.
Proof. destruct c; try done. simpl. eauto using dict_get_mem. Qed.

Lemma has_fields_has_operation c (operation : json) (line : Z) (content : json) :
  has_fields c operation line content → has_operation c = true.
Proof.
  intros (Hop & _). apply getitem_Ok in Hop as (d & -> & Hd).
  unfold has_operation. simpl. done.
Qed.

Lemma has_fields_line_of c (operation : json) (line : Z) (content : json) :
  has_fields c operation line content → line_of c = Some line.
Proof. intros (_ & (v & Hv & Hk) & _). unfold line_of. by rewrite Hv. Qed.

Lemma is_commentary_has_operation c : is_commentary c → has_operation c = false.
Proof. intros (d & -> & Hd). unfold has_operation. simpl. done. Qed.

(** On dictionaries the filter raises nothing and is the plain filter. *)
Lemma try_filter_dicts key (changes : list json) :
  Forall is_dict changes →
  try_filter (contains key) changes
  = Ok (filter (λ c, match contains key c with Ok b => b | Err _ => false end = true)
          changes).
Proof.
  induction 1 as [|c changes (d & ->) _ IH]; [done|].
  cbn [try_filter]. rewrite IH. cbn [contains mbind res_bind].
  rewrite filter_cons. cbn [contains].
  destruct (dict_mem key d); by case_decide.
Qed.

Lemma try_filter_map_dicts key (changes : list json) :
  Forall is_dict changes →
  ∃ vs, try_filter_map (contains key) (λ c, getitem c key) changes = Ok vs.
Proof.
  induction 1 as [|c changes (d & ->) _ (vs & IH)]; [by eexists|].
  cbn [try_filter_map contains mbind res_bind].
  destruct (dict_mem key d) eqn:Hd.
  - apply dict_mem_get in Hd as (v & Hv). cbn [getitem]. rewrite Hv, IH.
    by eexists.
  - rewrite IH. by eexists.
Qed.

End Dictionaries.

(** ** Python's list operations *)

Section PyListFacts.

Context {A : Type}.
Implicit Types (l : list A) (i : Z) (v : A).

Lemma list_index_in_range l i :
  0 ≤ i < Z.of_nat (length l) → list_index l i = Ok (Z.to_nat i).
Proof.
  intros Hi. unfold list_index.
  destruct (Z.ltb_spec i 0); [lia|].
  destruct (Z.ltb_spec i 0), (Z.leb_spec (Z.of_nat (length l)) i); try lia. done.
Qed.

(** A negative index counts from the end. *)
Lemma list_index_negative l i :
  - Z.of_nat (length l) ≤ i < 0 →
  list_index l i = Ok (Z.to_nat (i + Z.of_nat (length l))).
Proof.
  intros Hi. unfold list_index.
  destruct (Z.ltb_spec i 0); [|lia].
  destruct (Z.ltb_spec (i + Z.of_nat (length l)) 0),
    (Z.leb_spec (Z.of_nat (length l)) (i + Z.of_nat (length l))); try lia. done.
Qed.

Lemma list_index_outside l i :
  i < - Z.of_nat (length l) ∨ Z.of_nat (length l) ≤ i →
  list_index l i = Err IndexError.
Proof.
  intros Hi. unfold list_index.
  destruct (Z.ltb_spec i 0).
  - destruct (Z.ltb_spec (i + Z.of_nat (length l)) 0),
      (Z.leb_spec (Z.of_nat (length l)) (i + Z.of_nat (length l))); try lia; done.
  - destruct (Z.ltb_spec i 0), (Z.leb_spec (Z.of_nat (length l)) i); try lia; done.
Qed.

Lemma list_insert_fits l i v :
  - PY_SSIZE_T_MAX - 1 ≤ i ≤ PY_SSIZE_T_MAX →
  list_insert l i v
  = let n := Z.of_nat (length l) in
    let j := if i <? 0 then Z.max 0 (i + n) else Z.min i n in
    Ok (take (Z.to_nat j) l ++ v :: drop (Z.to_nat j) l).
Proof.
  intros Hi. unfold list_insert.
  destruct (Z.ltb_spec i (- PY_SSIZE_T_MAX - 1)),
    (Z.ltb_spec PY_SSIZE_T_MAX i); try lia. done.
Qed.

Lemma list_insert_in_range l i v :
  0 ≤ i ≤ Z.of_nat (length l) → i ≤ PY_SSIZE_T_MAX →
  list_insert l i v = Ok (take (Z.to_nat i) l ++ v :: drop (Z.to_nat i) l).
Proof.
  intros Hi Hmax. rewrite list_insert_fits by (unfold PY_SSIZE_T_MAX in *; lia).
  cbv zeta. destruct (Z.ltb_spec i 0); [lia|].
  by rewrite Z.min_l by lia.
Qed.

(** Beyond the end, [insert] appends. *)
Lemma list_insert_beyond l i v :
  Z.of_nat (length l) ≤ i ≤ PY_SSIZE_T_MAX →
  list_insert l i v = Ok (l ++ [v]).
Proof.
  intros Hi. rewrite list_insert_fits by (unfold PY_SSIZE_T_MAX in *; lia).
  cbv zeta. destruct (Z.ltb_spec i 0); [lia|].
  rewrite Z.min_r, Nat2Z.id by lia.
  by rewrite take_ge, drop_ge by lia.
Qed.

(** Before the start, counted from the end, [insert] puts in front. *)
Lemma list_insert_before l i v :
  - PY_SSIZE_T_MAX - 1 ≤ i ≤ - Z.of_nat (length l) → i < 0 →
  list_insert l i v = Ok (v :: l).
Proof.
  intros Hi Hneg. rewrite list_insert_fits by (unfold PY_SSIZE_T_MAX in *; lia).
  cbv zeta. destruct (Z.ltb_spec i 0); [|lia].
  rewrite Z.max_l by lia. done.
Qed.

Lemma list_insert_overflow l i v :
  i < - PY_SSIZE_T_MAX - 1 ∨ PY_SSIZE_T_MAX < i →
  list_insert l i v = Err OverflowError.
Proof.
  intros Hi. unfold list_insert.
  destruct (Z.ltb_spec i (- PY_SSIZE_T_MAX - 1)),
    (Z.ltb_spec PY_SSIZE_T_MAX i); try lia; done.
Qed.

End PyListFacts.

(** ** One operation *)

Section OneOperation.

Implicit Types (c operation content : json) (line : Z).
Implicit Types (buf file_lines : list string).

Lemma apply_change_fields file_lines c operation line content :
  has_fields c operation line content →
  apply_change file_lines c
  = if str_eq operation "Replace" then
      v ← add_newline content; list_setitem file_lines (line - 1) v
    else if str_eq operation "Delete" then list_delitem file_lines (line - 1)
    else if str_eq operation "InsertAfter" then
      v ← add_newline content; list_insert file_lines line v
    else Ok file_lines.
Proof.
  intros (Hop & (lv & Hlv & Hk) & Hcontent). unfold apply_change.
  rewrite Hop, Hlv, Hcontent. cbn [mbind res_bind].
  unfold as_index. rewrite Hk. cbn [mbind res_bind].
  repeat case_match; done.
Qed.

Lemma edited_line_fields c operation line content (old : string) :
  has_fields c operation line content →
  edited_line c old
  = if str_eq operation "Replace" then [text_of c]
    else if str_eq operation "Delete" then []
    else if str_eq operation "InsertAfter" then [old; text_of c]
    else [old].
Proof. intros (Hop & _). unfold edited_line. by rewrite Hop. Qed.

(** An operation within the buffer rewrites the one line it addresses
    into what [edited_line] says, and leaves the lines on both sides. *)
Lemma apply_change_in_range buf c operation line content (old : string) :
  has_fields c operation line content →
  (writes_content operation = true → ∃ s, content = JStr s) →
  1 ≤ line ≤ PY_SSIZE_T_MAX →
  buf !! Z.to_nat (line - 1) = Some old →
  apply_change buf c
  = Ok (take (Z.to_nat (line - 1)) buf ++ edited_line c old
          ++ drop (S (Z.to_nat (line - 1))) buf).
Proof.
  intros Hf Hs Hline Hold.
  pose proof (lookup_lt_Some _ _ _ Hold) as Hlt.
  rewrite (apply_change_fields _ _ _ _ _ Hf), (edited_line_fields _ _ _ _ _ Hf).
  unfold writes_content in Hs. unfold text_of.
  destruct Hf as (_ & _ & Hcontent). rewrite Hcontent.
  destruct (str_eq operation "Replace").
  { destruct Hs as [s ->]; [done|]. cbn [add_newline mbind res_bind].
    unfold list_setitem. rewrite list_index_in_range by lia.
    cbn [mbind res_bind]. f_equal.
    rewrite insert_take_drop by done. done. }
  destruct (str_eq operation "Delete").
  { unfold list_delitem. rewrite list_index_in_range by lia.
    cbn [mbind res_bind]. f_equal. by rewrite delete_take_drop. }
  destruct (str_eq operation "InsertAfter").
  { destruct Hs as [s ->]; [done|]. cbn [add_newline mbind res_bind].
    rewrite list_insert_in_range by lia. f_equal.
    replace (Z.to_nat line) with (S (Z.to_nat (line - 1))) by lia.
    rewrite (take_S_r _ _ _ Hold), <- app_assoc. done. }
  f_equal. symmetry. exact (take_drop_middle _ _ _ Hold).
Qed.

End OneOperation.

(** ** The sort *)

Section Sorting.

Context {A : Type}.
Implicit Types (kx : Z * A) (l : list (Z * A)).

Lemma sort_desc_cons kx l : sort_desc (kx :: l) = insert_desc kx (sort_desc l).
Proof. reflexivity. Qed.

Lemma insert_desc_Permutation kx l : insert_desc kx l ≡ₚ kx :: l.
Proof.
  induction l as [|ky l IH]; simpl; [done|].
  destruct (kx.1 <? ky.1); [|done].
  rewrite IH. apply Permutation_swap.
Qed.

Lemma sort_desc_Permutation l : sort_desc l ≡ₚ l.
Proof.
  induction l as [|kx l IH]; [done|].
  rewrite sort_desc_cons, insert_desc_Permutation. by f_equiv.
Qed.

Lemma insert_desc_sorted kx l :
  StronglySorted key_ge l → StronglySorted key_ge (insert_desc kx l).
Proof.
  induction 1 as [|ky l Hs IH Hall]; simpl; [by repeat constructor|].
  destruct (Z.ltb_spec kx.1 ky.1).
  - constructor; [done|]. rewrite insert_desc_Permutation.
    constructor; [unfold key_ge; lia | done].
  - constructor; [by constructor|].
    constructor; [unfold key_ge; lia|].
    eapply Forall_impl; [exact Hall|]. unfold key_ge. intros; simpl in *; lia.
Qed.

(** The result is in descending order of the keys... *)
Lemma sort_desc_sorted l : StronglySorted key_ge (sort_desc l).
Proof.
  induction l as [|kx l IH]; [constructor|].
  rewrite sort_desc_cons. by apply insert_desc_sorted.
Qed.

Lemma insert_desc_stable (z : Z) kx l :
  filter (λ p, p.1 = z) (insert_desc kx l) = filter (λ p, p.1 = z) (kx :: l).
Proof.
  induction l as [|ky l IH]; simpl; [done|].
  destruct (Z.ltb_spec kx.1 ky.1); [|done].
  rewrite (filter_cons _ ky), IH, !filter_cons.
  repeat case_decide; try done; lia.
Qed.

(** ... and stable: the items of any one key are in the order they had. *)
Lemma sort_desc_stable (z : Z) l :
  filter (λ p, p.1 = z) (sort_desc l) = filter (λ p, p.1 = z) l.
Proof.
  induction l as [|kx l IH]; [done|].
  rewrite sort_desc_cons, insert_desc_stable, !filter_cons, IH. done.
Qed.

(** Without equal keys the order is strict. *)
Lemma sorted_strict l :
  StronglySorted key_ge l → NoDup l.*1 → StronglySorted key_gt l.
Proof.
  induction 1 as [|kx l Hs IH Hall]; [constructor|].
  rewrite fmap_cons, NoDup_cons. intros [Hnotin Hnodup].
  constructor; [by apply IH|].
  rewrite Forall_forall in Hall |- *. intros ky Hky.
  specialize (Hall ky Hky). unfold key_ge, key_gt in *.
  destruct (decide (ky.1 = kx.1)) as [Heq|]; [|lia].
  exfalso. apply Hnotin. rewrite <- Heq. by apply list_elem_of_fmap_2.
Qed.

End Sorting.

Section SortByLine.

Implicit Types (c : json) (ops : list json).

Lemma keyed_snd ops : (keyed ops).*2 = ops.
Proof.
  unfold keyed. rewrite <- list_fmap_compose. rewrite <- (list_fmap_id ops) at 2.
  by apply list_fmap_ext.
Qed.

Lemma keyed_fst ops :
  Forall (λ c, is_Some (line_of c)) ops → Some <$> (keyed ops).*1 = line_of <$> ops.
Proof.
  unfold keyed. rewrite <- !list_fmap_compose.
  intros Hall. apply Forall_fmap_ext_1.
  eapply Forall_impl; [exact Hall|]. intros c [z Hz]. simpl. by rewrite Hz.
Qed.

Lemma keyed_zip ops : zip (keyed ops).*1 ops = keyed ops.
Proof. induction ops as [|c ops IH]; [done|]. cbn. by f_equal. Qed.

(** On operations that all carry an integer line, the sort is [sort_desc]
    by that line. *)
Lemma sort_by_line_reverse_keyed ops :
  Forall (λ c, is_Some (line_of c)) ops →
  sort_by_line_reverse ops = Ok (sort_desc (keyed ops)).*2.
Proof.
  intros Hall. unfold sort_by_line_reverse.
  assert (∃ keys, try_map (λ x, getitem x "line") ops = Ok keys
                  ∧ mapM int_key keys = Some (keyed ops).*1) as (keys & -> & Hk).
  { induction Hall as [|c ops [z Hz] _ (keys & IH1 & IH2)]; [by exists []|].
    unfold line_of in Hz.
    destruct (getitem c "line") as [v|] eqn:Hv; [|done].
    exists (v :: keys). cbn [try_map]. rewrite Hv, IH1. split; [done|].
    cbn. rewrite Hz, IH2. cbn. unfold line_of. by rewrite Hv, Hz. }
  cbn [mbind res_bind]. rewrite Hk.
  by rewrite keyed_zip.
Qed.

End SortByLine.

(** ** One pass from the highest line to the lowest *)

Section DescendingPass.

Implicit Types (c : json) (ops : list json) (i : Z).
Implicit Types (pre suf original : list string).

Lemma addressing_cons_eq c ops i :
  line_of c = Some i → addressing i (c :: ops) = Some c.
Proof.
  intros H. unfold addressing. cbn [List.find].
  by rewrite bool_decide_eq_true_2.
Qed.

Lemma addressing_cons_ne c ops i :
  line_of c ≠ Some i → addressing i (c :: ops) = addressing i ops.
Proof.
  intros H. unfold addressing. cbn [List.find].
  by rewrite bool_decide_eq_false_2.
Qed.

Lemma addressing_None ops i :
  Forall (λ c, line_of c ≠ Some i) ops → addressing i ops = None.
Proof.
  induction 1 as [|c ops Hc _ IH]; [done|].
  by rewrite addressing_cons_ne.
Qed.

Lemma addressing_Some ops i c :
  addressing i ops = Some c → c ∈ ops ∧ line_of c = Some i.
Proof.
  unfold addressing. intros [Hin Hc]%find_some.
  split; [by apply list_elem_of_In|]. by apply bool_decide_eq_true in Hc.
Qed.

Lemma concat_imap_id {A : Type} (f : nat → A → list A) (l : list A) :
  (∀ k x, l !! k = Some x → f k x = [x]) → concat (imap f l) = l.
Proof.
  revert f. induction l as [|x l IH]; intros f Hf; [done|].
  rewrite imap_cons. cbn [concat]. rewrite (Hf 0%nat x) by done.
  rewrite IH; [done|]. intros k y Hk. by apply (Hf (S k)).
Qed.

(** Operations in strictly descending order of their lines, all within the
    first part [pre] of the buffer: the pass rewrites each addressed line
    of [pre] in place, as if the others had not been applied, and does not
    touch what follows [pre]. *)
Lemma descending_pass ops pre suf :
  StronglySorted below ops →
  Forall (edit_within (length pre)) ops →
  py_list pre →
  try_fold apply_change ops (pre ++ suf)
  = Ok (concat (imap (rewritten ops) pre) ++ suf).
Proof.
  revert pre suf. induction ops as [|c ops IH]; intros pre suf Hsorted Hall Hmax.
  all: unfold py_list in Hmax.
  - cbn [try_fold]. by rewrite concat_imap_id.
  - apply StronglySorted_cons in Hsorted as [Hbelow Hsorted].
    apply Forall_cons in Hall
      as [(operation & line & content & Hf & Hrange & Hs) Hall].
    pose proof (has_fields_line_of _ _ _ _ Hf) as Hline.
    remember (Z.to_nat (line - 1)) as p eqn:Hpdef.
    assert (p < length pre)%nat as Hp by lia.
    destruct (lookup_lt_is_Some_2 pre p Hp) as [old Hold].
    cbn [try_fold].
    rewrite (apply_change_in_range (pre ++ suf) c operation line content old);
      [|done|done|lia|rewrite <- Hpdef; by apply lookup_app_l_Some].
    rewrite <- Hpdef. cbn [mbind res_bind].
    rewrite take_app_le, drop_app_le by lia.
    rewrite <- ?app_assoc.
    rewrite IH; [| done | | unfold py_list; rewrite length_take; lia].
    + (* the walk over [pre] splits at the addressed line *)
      assert (imap (rewritten (c :: ops)) (take p pre)
              = imap (rewritten ops) (take p pre)) as Hbefore.
      { apply imap_ext. intros k y Hk.
        apply lookup_lt_Some in Hk. rewrite length_take in Hk.
        unfold rewritten. rewrite addressing_cons_ne; [done|].
        rewrite Hline. intros [= Heq]. lia. }
      assert (rewritten (c :: ops) p old = edited_line c old) as Hat.
      { unfold rewritten. rewrite addressing_cons_eq; [done|].
        rewrite Hline. f_equal. lia. }
      assert (concat (imap (λ k, rewritten (c :: ops) (p + S k)) (drop (S p) pre))
              = drop (S p) pre) as Hafter.
      { apply concat_imap_id. intros k y _. unfold rewritten.
        rewrite addressing_cons_ne by (rewrite Hline; intros [= Heq]; lia).
        rewrite addressing_None; [done|].
        rewrite Forall_forall in Hbelow |- *. intros c' Hc'.
        destruct (Hbelow c' Hc') as (za & zb & Hza & Hzb & Hlt).
        rewrite Hzb. intros [= Heq]. rewrite Hline in Hza. simplify_eq. lia. }
      rewrite <- (take_drop_middle pre p old Hold) at 3.
      rewrite imap_app, concat_app, imap_cons. cbn [concat].
      rewrite length_take_le by lia.
      rewrite Hbefore, Nat.add_0_r, Hat. unfold compose. rewrite Hafter.
      by rewrite <- !app_assoc.
    + rewrite Forall_forall in Hall, Hbelow |- *. intros c' Hc'.
      destruct (Hall c' Hc') as (operation' & line' & content' & Hf' & Hrange' & Hs').
      destruct (Hbelow c' Hc') as (za & zb & Hza & Hzb & Hlt).
      rewrite Hline in Hza. rewrite (has_fields_line_of _ _ _ _ Hf') in Hzb.
      simplify_eq.
      exists operation', zb, content'. split; [done|]. split; [|done].
      rewrite length_take. lia.
Qed.

End DescendingPass.

(** ** A whole batch *)

Section Batch.

Implicit Types (c : json) (ops changes : list json) (i : Z).
Implicit Types (original : list string).

Lemma edit_within_is_dict (n : nat) c : edit_within n c → is_dict c.
Proof.
  intros (operation & line & content & (Hop & _) & _).
  apply getitem_Ok in Hop as (d & -> & _). by exists d.
Qed.

Lemma edit_within_has_operation (n : nat) c : edit_within n c → has_operation c = true.
Proof.
  intros (operation & line & content & Hf & _).
  by eapply has_fields_has_operation.
Qed.

Lemma edit_within_line_of (n : nat) c : edit_within n c → is_Some (line_of c).
Proof.
  intros (operation & line & content & Hf & _).
  rewrite (has_fields_line_of _ _ _ _ Hf). by eexists.
Qed.

Lemma omap_line_of_keyed ops :
  Forall (λ c, is_Some (line_of c)) ops → omap line_of ops = (keyed ops).*1.
Proof.
  induction 1 as [|c ops [z Hz] _ IH]; [done|].
  cbn. rewrite Hz. cbn. f_equal. exact IH.
Qed.

Lemma keyed_line_of ops :
  Forall (λ c, is_Some (line_of c)) ops →
  Forall (λ p, line_of p.2 = Some p.1) (keyed ops).
Proof.
  unfold keyed. rewrite Forall_fmap. intros Hall.
  eapply Forall_impl; [exact Hall|].
  intros c [z Hz]. simpl. by rewrite Hz.
Qed.

Lemma sorted_below (l : list (Z * json)) :
  StronglySorted key_gt l →
  Forall (λ p, line_of p.2 = Some p.1) l →
  StronglySorted below l.*2.
Proof.
  induction 1 as [|p l Hs IH Hall]; [constructor|].
  rewrite Forall_cons. intros [Hp Hl]. cbn. constructor; [by apply IH|].
  rewrite Forall_fmap, Forall_forall. intros q Hq.
  rewrite Forall_forall in Hall, Hl.
  exists p.1, q.1. split; [done|]. split; [by apply Hl|]. by apply Hall.
Qed.

(** Among operations with distinct lines, the one that addresses a line is
    determined by membership: the order of the batch does not matter. *)
Lemma addressing_unique ops i c :
  NoDup (omap line_of ops) → c ∈ ops → line_of c = Some i →
  addressing i ops = Some c.
Proof.
  induction ops as [|a ops IH]; intros Hnodup Hin Hc; [by apply elem_of_nil in Hin|].
  destruct (decide (line_of a = Some i)) as [Ha|Ha].
  - rewrite addressing_cons_eq by done. f_equal.
    apply elem_of_cons in Hin as [->|Hin]; [done|].
    exfalso. cbn in Hnodup. rewrite Ha in Hnodup.
    apply NoDup_cons in Hnodup as [Hnotin _]. apply Hnotin.
    apply list_elem_of_omap. eauto.
  - rewrite addressing_cons_ne by done.
    apply elem_of_cons in Hin as [->|Hin]; [done|].
    apply IH; [|done..].
    cbn in Hnodup. destruct (line_of a); [|done].
    by apply NoDup_cons in Hnodup as [_ ?].
Qed.

Lemma addressing_Permutation ops ops' i :
  NoDup (omap line_of ops) → ops' ≡ₚ ops → addressing i ops' = addressing i ops.
Proof.
  intros Hnodup Hperm.
  assert (NoDup (omap line_of ops')) as Hnodup' by (by rewrite Hperm).
  destruct (addressing i ops) as [c|] eqn:H.
  - apply addressing_Some in H as [Hin Hc].
    apply addressing_unique; [done| |done]. by rewrite Hperm.
  - destruct (addressing i ops') as [c|] eqn:H'; [|done].
    apply addressing_Some in H' as [Hin Hc].
    rewrite (addressing_unique ops i c) in H; [done..| |done].
    by rewrite <- Hperm.
Qed.

Lemma simultaneous_Permutation original changes changes' :
  NoDup (addressed_lines changes) → changes' ≡ₚ changes →
  simultaneous original changes' = simultaneous original changes.
Proof.
  intros Hnodup Hperm. unfold simultaneous. f_equal.
  apply imap_ext. intros k old _. unfold rewritten.
  rewrite (addressing_Permutation
             (filter (λ c, has_operation c = true) changes)); [done|done|].
  by rewrite Hperm.
Qed.

(** What [apply_changes] does on a batch of dictionaries whose operations
    all carry an integer line: filter, sort by line, one pass. *)
Lemma apply_changes_dicts original changes :
  Forall is_dict changes →
  Forall (λ c, is_Some (line_of c)) (filter (λ c, has_operation c = true) changes) →
  apply_changes original changes
  = try_fold apply_change
      (sort_desc (keyed (filter (λ c, has_operation c = true) changes))).*2
      original.
Proof.
  intros Hdicts Hlines. unfold apply_changes.
  rewrite try_filter_dicts by done. cbn [mbind res_bind].
  destruct (try_filter_map_dicts "explanation" changes Hdicts) as [vs ->].
  cbn [mbind res_bind].
  change (filter _ changes) with (filter (λ c, has_operation c = true) changes).
  rewrite sort_by_line_reverse_keyed by done. done.
Qed.

(** The batch as the code applies it is the batch applied all at once. *)
Lemma apply_changes_simultaneous original changes :
  py_list original →
  Forall (λ c, is_commentary c ∨ edit_within (length original) c) changes →
  NoDup (addressed_lines changes) →
  apply_changes original changes = Ok (simultaneous original changes).
Proof.
  intros Hmax Hall Hnodup.
  set (ops := filter (λ c, has_operation c = true) changes).
  assert (Forall is_dict changes) as Hdicts.
  { eapply Forall_impl; [exact Hall|].
    intros c [(d & -> & _)|Hc]; [by exists d | by eapply edit_within_is_dict]. }
  assert (Forall (edit_within (length original)) ops) as Hops.
  { apply Forall_forall. intros c [Hc Hin]%list_elem_of_filter.
    rewrite Forall_forall in Hall.
    destruct (Hall c Hin) as [Hcom|Hedit]; [|done].
    apply is_commentary_has_operation in Hcom. congruence. }
  assert (Forall (λ c, is_Some (line_of c)) ops) as Hlines.
  { eapply Forall_impl; [exact Hops|]. intros c. apply edit_within_line_of. }
  rewrite apply_changes_dicts by done. fold ops.
  set (sorted := sort_desc (keyed ops)).
  assert (sorted.*2 ≡ₚ ops) as Hperm.
  { unfold sorted. rewrite sort_desc_Permutation. by rewrite keyed_snd. }
  assert (StronglySorted below sorted.*2) as Hsorted.
  { apply sorted_below.
    - apply sorted_strict; [apply sort_desc_sorted|].
      unfold sorted. rewrite sort_desc_Permutation.
      rewrite <- omap_line_of_keyed by done. exact Hnodup.
    - unfold sorted. rewrite sort_desc_Permutation. by apply keyed_line_of. }
  rewrite <- (app_nil_r original) at 1.
  rewrite descending_pass; [|done|by rewrite Hperm|done].
  rewrite app_nil_r. f_equal. unfold simultaneous. fold ops. f_equal.
  apply imap_ext. intros k old _. unfold rewritten.
  by rewrite (addressing_Permutation ops).
Qed.

End Batch.

(** ** Batches of one operation, and batches that cannot succeed *)

Section SmallBatches.

Implicit Types (c operation content : json) (line : Z).
Implicit Types (changes : list json) (buf original : list string).

Lemma bind_Ok {A : Type} (r : res A) : r ≫= Ok = r.
Proof. by destruct r. Qed.

(** A batch of one operation is one run of the loop body. *)
Lemma apply_changes_single buf c operation line :
  getitem c "operation" = Ok operation →
  line_of c = Some line →
  apply_changes buf [c] = apply_change buf c.
Proof.
  intros Hop Hline.
  pose proof Hop as (d & -> & Hd)%getitem_Ok.
  assert (filter (λ c, has_operation c = true) [JObj d] = [JObj d]) as Hfilter.
  { rewrite filter_cons, filter_nil. unfold has_operation. cbn [contains].
    by rewrite decide_True. }
  rewrite apply_changes_dicts.
  - rewrite Hfilter.
    change (keyed [JObj d]) with [(default 0 (line_of (JObj d)), JObj d)].
    rewrite Hline. cbn [sort_desc foldr insert_desc fmap list_fmap snd try_fold].
    apply bind_Ok.
  - repeat constructor. by exists d.
  - rewrite Hfilter. repeat constructor. by rewrite Hline.
Qed.

(** No exception of [apply_changes] lets anything be written. *)
Lemma file_after_Err original changes (e : exn) :
  apply_changes original changes = Err e → file_after original changes = original.
Proof. unfold file_after. by intros ->. Qed.

Lemma file_after_Ok original changes (file_lines : list string) :
  apply_changes original changes = Ok file_lines →
  file_after original changes = file_lines.
Proof. unfold file_after. by intros ->. Qed.

Lemma try_filter_Ok_elem {A : Type} (p : A → res bool) (l l' : list A) (x : A) :
  try_filter p l = Ok l' → x ∈ l → p x = Ok true → x ∈ l'.
Proof.
  revert l'. induction l as [|y l IH]; intros l' Hl Hin Hx;
    [by apply elem_of_nil in Hin|].
  cbn [try_filter] in Hl.
  destruct (p y) as [b|] eqn:Hy; [|done]. cbn [mbind res_bind] in Hl.
  destruct (try_filter p l) as [ys|] eqn:Hys; [|done].
  cbn [mbind res_bind] in Hl. simplify_eq.
  apply elem_of_cons in Hin as [->|Hin].
  - rewrite Hx in Hy. simplify_eq. apply elem_of_cons. by left.
  - specialize (IH ys eq_refl Hin Hx). destruct b; [|done].
    apply elem_of_cons. by right.
Qed.

Lemma try_map_length {A B : Type} (f : A → res B) (l : list A) (l' : list B) :
  try_map f l = Ok l' → length l' = length l.
Proof.
  revert l'. induction l as [|x l IH]; intros l'; cbn [try_map].
  - by intros [= <-].
  - destruct (f x); [|done]. cbn [mbind res_bind].
    destruct (try_map f l) as [ys|]; [|done]. cbn [mbind res_bind].
    intros [= <-]. cbn. f_equal. by apply IH.
Qed.

(** The sort, when it raises nothing, only reorders. *)
Lemma sort_by_line_reverse_Permutation (ops sorted : list json) :
  sort_by_line_reverse ops = Ok sorted → sorted ≡ₚ ops.
Proof.
  unfold sort_by_line_reverse.
  destruct (try_map _ ops) as [keys|] eqn:Hkeys; [|done].
  cbn [mbind res_bind]. apply try_map_length in Hkeys.
  destruct (mapM int_key keys) as [zs|] eqn:Hzs.
  - intros [= <-]. rewrite sort_desc_Permutation.
    apply length_mapM in Hzs. rewrite snd_zip; [done|lia].
  - destruct (length ops <=? 1)%nat; [|done]. by intros [= <-].
Qed.

Lemma try_fold_Err {A B : Type} (f : B → A → res B) (l : list A) (x : A) (b : B) :
  x ∈ l → (∀ b', ∃ e, f b' x = Err e) → ∃ e, try_fold f l b = Err e.
Proof.
  intros Hin Hx. revert b. induction l as [|y l IH]; intros b;
    [by apply elem_of_nil in Hin|].
  cbn [try_fold].
  apply elem_of_cons in Hin as [<-|Hin].
  - destruct (Hx b) as [e ->]. by exists e.
  - destruct (f b y) as [b'|e]; [|by exists e]. cbn [mbind res_bind]. by apply IH.
Qed.

(** A batch that holds an operation without the key ["content"] raises,
    whatever else is in it and whatever the operation is. *)
Lemma apply_changes_missing_content original changes (d : list (string * json)) :
  JObj d ∈ changes →
  dict_mem "operation" d = true →
  dict_mem "content" d = false →
  ∃ e, apply_changes original changes = Err e.
Proof.
  intros Hin Hop Hcontent. unfold apply_changes.
  destruct (try_filter _ changes) as [ops|e] eqn:Hops; [|by exists e].
  cbn [mbind res_bind].
  destruct (try_filter_map _ _ changes) as [vs|e]; [|by exists e].
  cbn [mbind res_bind].
  destruct (sort_by_line_reverse ops) as [sorted|e] eqn:Hsorted; [|by exists e].
  cbn [mbind res_bind].
  apply (try_fold_Err _ _ (JObj d)).
  - rewrite (sort_by_line_reverse_Permutation _ _ Hsorted).
    eapply try_filter_Ok_elem; [exact Hops|done|]. cbn [contains]. by rewrite Hop.
  - intros b'. unfold apply_change. cbn [getitem].
    destruct (dict_get "operation" d); [|by eexists]. cbn [mbind res_bind].
    destruct (dict_get "line" d); [|by eexists]. cbn [mbind res_bind].
    rewrite (dict_get_not_mem _ _ Hcontent). by eexists.
Qed.

End SmallBatches.

(** ** The claims about the patch engine *)

Section PatchClaims.

Implicit Types (c operation : json) (line : Z).
Implicit Types (changes : list json) (buf original : list string).

(** C1, counterexample. On a buffer of three lines a [Replace] at line 0
    is not rejected: it overwrites the last line, through the negative
    index [-1]; and an [InsertAfter] at line 7 is not rejected either: the
    buffer grows by the new line at its end. *)
Lemma out_of_range_line_counterexample :
  let buf := [ln "a"; ln "b"; ln "c"] in
  apply_changes buf [edit "Replace" 0 (JStr "z")] = Ok [ln "a"; ln "b"; ln "z"] ∧
  file_after buf [edit "Replace" 0 (JStr "z")] ≠ buf ∧
  apply_changes buf [edit "InsertAfter" 7 (JStr "z")]
    = Ok [ln "a"; ln "b"; ln "c"; ln "z"] ∧
  file_after buf [edit "InsertAfter" 7 (JStr "z")] ≠ buf.
Proof. vm_compute. repeat split; discriminate. Qed.

(** C1, as the code has it. [apply_changes] checks no range; a line
    outside the buffer meets Python's list operations. With [n] the length
    of the buffer when the operation is applied: a [Replace] or [Delete]
    at a line above [n], or at [-n] or below, raises [IndexError], and an
    exception of [apply_changes] leaves the file as it was; a [Replace] or
    [Delete] at a line from [-n + 1] to 0 acts on the line counted from the
    end; an [InsertAfter] above [n] appends, at 0 it puts the new line in
    front, at a negative line it inserts counted from the end, and beyond
    the index range it raises [OverflowError]. A batch of one operation is
    that operation applied to the original buffer. *)
Theorem out_of_range_line buf c (kind : string) line (content : string) :
  has_fields c (JStr kind) line (JStr content) →
  let n := Z.of_nat (length buf) in
  let v := String.append content nl in
  apply_changes buf [c] = apply_change buf c ∧
  (∀ changes e, apply_changes buf changes = Err e → file_after buf changes = buf) ∧
  (kind = "Replace"%string →
     (line ≤ - n ∨ n < line → apply_change buf c = Err IndexError) ∧
     (- n < line ≤ 0 →
        apply_change buf c = Ok (<[Z.to_nat (line - 1 + n) := v]> buf))) ∧
  (kind = "Delete"%string →
     (line ≤ - n ∨ n < line → apply_change buf c = Err IndexError) ∧
     (- n < line ≤ 0 →
        apply_change buf c = Ok (delete (Z.to_nat (line - 1 + n)) buf))) ∧
  (kind = "InsertAfter"%string →
     (n < line ≤ PY_SSIZE_T_MAX → apply_change buf c = Ok (buf ++ [v])) ∧
     (line = 0 → apply_change buf c = Ok (v :: buf)) ∧
     (- PY_SSIZE_T_MAX - 1 ≤ line < 0 →
        apply_change buf c
        = Ok (take (Z.to_nat (line + n)) buf ++ v :: drop (Z.to_nat (line + n)) buf)) ∧
     (line < - PY_SSIZE_T_MAX - 1 ∨ PY_SSIZE_T_MAX < line →
        apply_change buf c = Err OverflowError)).
Proof.
  intros Hf n v.
  pose proof (apply_change_fields buf _ _ _ _ Hf) as Hstep.
  split; [|split; [|split; [|split]]].
  - eapply apply_changes_single; [exact (proj1 Hf)|].
    by eapply has_fields_line_of.
  - intros changes e. apply file_after_Err.
  - intros ->. rewrite Hstep. cbn [str_eq String.eqb Ascii.eqb Bool.eqb
      add_newline mbind res_bind]. unfold list_setitem. split; intros Hline.
    + rewrite list_index_outside by (fold n; lia). done.
    + rewrite list_index_negative by (fold n; lia). done.
  - intros ->. rewrite Hstep. cbn [str_eq String.eqb Ascii.eqb Bool.eqb].
    unfold list_delitem. split; intros Hline.
    + rewrite list_index_outside by (fold n; lia). done.
    + rewrite list_index_negative by (fold n; lia). done.
  - intros ->. rewrite Hstep. cbn [str_eq String.eqb Ascii.eqb Bool.eqb
      add_newline mbind res_bind].
    split; [|split; [|split]]; intros Hline.
    + by rewrite list_insert_beyond by (fold n; lia).
    + subst line. rewrite list_insert_in_range by (unfold PY_SSIZE_T_MAX; lia).
      done.
    + rewrite list_insert_fits by (unfold PY_SSIZE_T_MAX in *; lia).
      cbv zeta. destruct (Z.ltb_spec line 0); [|lia]. fold n.
      destruct (Z.max_spec 0 (line + n)) as [[? ->]|[? ->]]; [done|].
      replace (Z.to_nat (line + n)) with (Z.to_nat 0) by lia. done.
    + by rewrite list_insert_overflow.
Qed.

(** [out_of_range_line] at a [Delete] of line 0: the last line goes. *)
Lemma out_of_range_line_witness :
  has_fields (edit "Delete" 0 (JStr "")) (JStr "Delete") 0 (JStr "") ∧
  apply_changes [ln "a"; ln "b"; ln "c"] [edit "Delete" 0 (JStr "")]
    = Ok [ln "a"; ln "b"].
Proof.
  assert (Hf : has_fields (edit "Delete" 0 (JStr "")) (JStr "Delete") 0 (JStr "")).
  { split; [reflexivity|]. split; [|reflexivity]. exists (JInt 0). by split. }
  split; [exact Hf|].
  destruct (out_of_range_line [ln "a"; ln "b"; ln "c"] _ _ _ _ Hf)
    as (Hone & _ & _ & Hdel & _).
  rewrite Hone. destruct (Hdel eq_refl) as [_ Hwrap].
  rewrite Hwrap; [reflexivity|]. simpl. lia.
Defined.

End PatchClaims.

Section PatchScenarios.

Implicit Types (c operation content : json) (line : Z).
Implicit Types (changes : list json) (buf original : list string).

(** C6, counterexample. The batch as the claim gives it, with a [Delete]
    that has no ["content"]: the pass replaces line 3 and then raises
    [KeyError] on the [Delete]; no buffer is produced and nothing is
    written. *)
Lemma scenario_counterexample :
  let original := [ln "a"; ln "b"; ln "c"] in
  let batch := [edit_without_content "Delete" 2;
                edit "InsertAfter" 1 (JStr "x");
                edit "Replace" 3 (JStr "z")] in
  apply_changes original batch = Err KeyError ∧
  file_after original batch = original.
Proof. vm_compute. by split. Qed.

(** C6, as the code has it. The same batch with a ["content"] on the
    [Delete], whatever its value, yields the buffer of the claim. *)
Theorem scenario_with_content content :
  apply_changes [ln "a"; ln "b"; ln "c"]
    [edit "Delete" 2 content;
     edit "InsertAfter" 1 (JStr "x");
     edit "Replace" 3 (JStr "z")]
  = Ok [ln "a"; ln "x"; ln "z"].
Proof. reflexivity. Qed.

(** C7, counterexample. One [Delete] at line 1 of a one-line buffer, with
    no ["content"]: no two operations share a line and the line is within
    bounds; all at once the batch gives the empty buffer, but the pass of
    the code raises [KeyError]. *)
Lemma line_addressing_counterexample :
  let original := [ln "only"] in
  let batch := [edit_without_content "Delete" 1] in
  addressed_lines batch = [1] ∧
  simultaneous original batch = [] ∧
  apply_changes original batch = Err KeyError.
Proof. vm_compute. by repeat split. Qed.

(** C7, as the code has it. A batch whose objects are commentary or edits
    with the three fields (the content a string where it is used), with
    lines that are distinct and within the original buffer: the pass of
    [apply_changes], highest line first on one buffer, gives the buffer
    that the operations give when applied all at once against the
    original numbering, and so does every reordering of the batch. *)
Theorem line_addressing_invariance original changes changes' :
  py_list original →
  Forall (λ c, is_commentary c ∨ edit_within (length original) c) changes →
  NoDup (addressed_lines changes) →
  changes' ≡ₚ changes →
  apply_changes original changes = Ok (simultaneous original changes) ∧
  apply_changes original changes' = Ok (simultaneous original changes).
Proof.
  intros Hmax Hall Hnodup Hperm.
  split; [by apply apply_changes_simultaneous|].
  rewrite <- (simultaneous_Permutation original changes changes') by done.
  apply apply_changes_simultaneous; [done| |].
  - by rewrite Hperm.
  - unfold addressed_lines in *. by rewrite Hperm.
Qed.

(** [line_addressing_invariance] at the scenario of the specification,
    with a content on the [Delete] and a commentary object in between, in
    the given order and in the reverse order. *)
Lemma line_addressing_invariance_witness :
  let original := [ln "a"; ln "b"; ln "c"] in
  let changes := [edit "Delete" 2 JNull;
                  JObj [("explanation"%string, JStr "off by one")];
                  edit "InsertAfter" 1 (JStr "x");
                  edit "Replace" 3 (JStr "z")] in
  apply_changes original changes = Ok [ln "a"; ln "x"; ln "z"] ∧
  apply_changes original (reverse changes) = Ok [ln "a"; ln "x"; ln "z"].
Proof.
  intros original changes.
  assert (H1 : py_list original) by (vm_compute; discriminate).
  assert (Hedit : ∀ kind line content,
            1 ≤ line ≤ 3 → (∃ s, content = JStr s) ∨ kind = "Delete"%string →
            edit_within (length original) (edit kind line content)).
  { intros kind line content Hline Hcontent.
    exists (JStr kind), line, content. split; [|split; [simpl; lia|]].
    - split; [reflexivity|]. split; [|reflexivity]. exists (JInt line). by split.
    - destruct Hcontent as [?| ->]; [done|]. discriminate. }
  assert (H2 : Forall (λ c, is_commentary c ∨ edit_within (length original) c)
                 changes).
  { repeat apply Forall_cons_2; [| | | |apply Forall_nil_2].
    - right. apply Hedit; [lia|by right].
    - left. eexists. split; reflexivity.
    - right. apply Hedit; [lia|left; by eexists].
    - right. apply Hedit; [lia|left; by eexists]. }
  assert (H3 : NoDup (addressed_lines changes)).
  { change (NoDup [2; 1; 3]).
    repeat (apply NoDup_cons_2; [rewrite ?elem_of_cons, elem_of_nil; lia|]).
    apply NoDup_nil_2. }
  assert (H4 : reverse changes ≡ₚ changes) by apply reverse_Permutation.
  exact (line_addressing_invariance original changes (reverse changes) H1 H2 H3 H4).
Defined.

(** C8. A batch in which every object lacks the key ["operation"]: the
    filter keeps none of them, and the buffer handed to the file is the
    original one. *)
Theorem commentary_only_batch original changes :
  Forall is_commentary changes →
  try_filter (contains "operation") changes = Ok [] ∧
  apply_changes original changes = Ok original ∧
  file_after original changes = original.
Proof.
  intros Hall.
  assert (filter (λ c, has_operation c = true) changes = []) as Hnone.
  { induction Hall as [|c changes Hc _ IH]; [done|].
    rewrite filter_cons, decide_False; [done|].
    rewrite (is_commentary_has_operation _ Hc). done. }
  assert (Forall is_dict changes) as Hdicts.
  { eapply Forall_impl; [exact Hall|]. intros c (d & -> & _). by exists d. }
  assert (apply_changes original changes = Ok original) as Happly.
  { rewrite apply_changes_dicts; [by rewrite Hnone|done|].
    rewrite Hnone. constructor. }
  split; [|split; [done|by apply file_after_Ok]].
  rewrite try_filter_dicts by done. f_equal. exact Hnone.
Qed.

(** The reply of the specification's scenario, as a Python string. *)
Lemma commentary_reply_parses :
  parse_reply
    (String.append "Sure! Here you go:"
       (String.append nl
          (String.append "[{"
             (String.append (quoted "explanation")
                (String.append ":" (String.append (quoted "fix") "}]"))))))
  = Some (JArr [JObj [("explanation"%string, JStr "fix")]]).
Proof. vm_compute. reflexivity. Qed.

(** [commentary_only_batch] at the batch of the specification's
    scenario. *)
Lemma commentary_only_batch_witness :
  let batch := [JObj [("explanation"%string, JStr "fix")]] in
  Forall is_commentary batch ∧
  apply_changes [ln "a"; ln "b"] batch = Ok [ln "a"; ln "b"].
Proof.
  intros batch.
  assert (H : Forall is_commentary batch).
  { apply Forall_cons_2; [|apply Forall_nil_2]. eexists. split; reflexivity. }
  split; [exact H|].
  exact (proj1 (proj2 (commentary_only_batch [ln "a"; ln "b"] batch H))).
Defined.

(** C9, counterexample. A [Delete] without ["content"] does not succeed:
    reading the absent field raises [KeyError] before the line is
    removed. *)
Lemma delete_without_content_counterexample :
  let original := [ln "a"; ln "b"] in
  apply_changes original [edit_without_content "Delete" 2] = Err KeyError ∧
  file_after original [edit_without_content "Delete" 2] = original.
Proof. vm_compute. by split. Qed.

(** C9, as the code has it. For a [Delete] within the buffer the value of
    ["content"] is ignored, but the key has to be there: with it, whatever
    it holds, the addressed line is removed; without it the call raises
    [KeyError] and the file stays as it was, and so does every batch that
    holds such an operation. *)
Theorem delete_ignores_content_value buf (d : list (string * json)) line :
  getitem (JObj d) "operation" = Ok (JStr "Delete") →
  line_of (JObj d) = Some line →
  1 ≤ line ≤ Z.of_nat (length buf) →
  (∀ content, getitem (JObj d) "content" = Ok content →
     apply_changes buf [JObj d] = Ok (delete (Z.to_nat (line - 1)) buf)) ∧
  (dict_mem "content" d = false →
     apply_changes buf [JObj d] = Err KeyError ∧
     file_after buf [JObj d] = buf ∧
     ∀ original changes, JObj d ∈ changes →
       ∃ e, apply_changes original changes = Err e).
Proof.
  intros Hop Hline Hrange.
  rewrite (apply_changes_single buf _ _ _ Hop Hline). split.
  - intros content Hcontent.
    assert (has_fields (JObj d) (JStr "Delete") line content) as Hf.
    { split; [done|]. split; [|done].
      unfold line_of in Hline.
      destruct (getitem (JObj d) "line") as [v|]; [|done]. by exists v. }
    rewrite (apply_change_fields _ _ _ _ _ Hf).
    cbn [str_eq String.eqb Ascii.eqb Bool.eqb]. unfold list_delitem.
    by rewrite list_index_in_range by lia.
  - intros Hmissing.
    assert (apply_change buf (JObj d) = Err KeyError) as Hraise.
    { unfold apply_change. rewrite Hop. cbn [mbind res_bind].
      unfold line_of in Hline.
      destruct (getitem (JObj d) "line") as [v|]; [|done]. cbn [mbind res_bind].
      cbn [getitem]. by rewrite (dict_get_not_mem _ _ Hmissing). }
    split; [done|]. split.
    + apply (file_after_Err _ _ KeyError).
      by rewrite (apply_changes_single buf _ _ _ Hop Hline).
    + intros original changes Hin.
      apply (apply_changes_missing_content original changes d); [done| |done].
      by destruct (getitem_Ok _ _ _ Hop) as (d' & [= <-] & Hd').
Qed.

(** [delete_ignores_content_value] at a [Delete] whose content is a
    number, and at one without content. *)
Lemma delete_ignores_content_value_witness :
  apply_changes [ln "a"; ln "b"; ln "c"] [edit "Delete" 2 (JInt 7)]
    = Ok [ln "a"; ln "c"] ∧
  apply_changes [ln "a"; ln "b"; ln "c"] [edit_without_content "Delete" 2]
    = Err KeyError.
Proof.
  split.
  - refine (proj1 (delete_ignores_content_value [ln "a"; ln "b"; ln "c"]
                     _ 2 _ _ _) (JInt 7) _);
      [reflexivity | reflexivity | simpl; lia | reflexivity].
  - refine (proj1 (proj2 (delete_ignores_content_value [ln "a"; ln "b"; ln "c"]
                            _ 2 _ _ _) _));
      [reflexivity | reflexivity | simpl; lia | reflexivity].
Defined.

(** C10. A [Replace] or an [InsertAfter] within the buffer, at whatever
    point of a pass it is applied, puts there one element, the content
    followed by one ["\n"], whatever the content holds (a newline at its
    end, newlines inside): the replaced line becomes that element and the
    others stay; the inserted element comes right after the addressed line.
    A batch of that one operation gives the same buffer. *)
Theorem content_line_stored buf c operation line (content : string) :
  has_fields c operation line (JStr content) →
  1 ≤ line ≤ Z.of_nat (length buf) →
  py_list buf →
  apply_changes buf [c] = apply_change buf c ∧
  (str_eq operation "Replace" = true →
     apply_change buf c
     = Ok (<[Z.to_nat (line - 1) := String.append content nl]> buf)) ∧
  (str_eq operation "InsertAfter" = true →
     apply_change buf c
     = Ok (take (Z.to_nat line) buf ++ String.append content nl
             :: drop (Z.to_nat line) buf)).
Proof.
  intros Hf Hrange Hmax. unfold py_list in Hmax. split.
  { eapply apply_changes_single; [exact (proj1 Hf)|].
    by eapply has_fields_line_of. }
  rewrite (apply_change_fields _ _ _ _ _ Hf). split; intros Hop.
  - rewrite Hop. cbn [add_newline mbind res_bind]. unfold list_setitem.
    by rewrite list_index_in_range by lia.
  - destruct operation as [| | | |s| |]; try done. cbn [str_eq] in *.
    apply String.eqb_eq in Hop as ->.
    cbn [String.eqb Ascii.eqb Bool.eqb add_newline mbind res_bind].
    by rewrite list_insert_in_range by lia.
Qed.

(** [content_line_stored] at a content that ends in a newline and at one
    with a newline inside. *)
Lemma content_line_stored_witness :
  apply_changes [ln "a"; ln "b"] [edit "Replace" 2 (JStr (ln "x"))]
    = Ok [ln "a"; String.append (ln "x") nl] ∧
  apply_changes [ln "a"; ln "b"]
      [edit "InsertAfter" 1 (JStr (String.append (ln "x") "y"))]
    = Ok [ln "a"; ln (String.append (ln "x") "y"); ln "b"].
Proof.
  assert (Hf : ∀ kind line (s : string),
            has_fields (edit kind line (JStr s)) (JStr kind) line (JStr s)).
  { intros. split; [reflexivity|]. split; [|reflexivity].
    exists (JInt line). by split. }
  assert (Hmax : py_list [ln "a"; ln "b"]) by (vm_compute; discriminate).
  split.
  - destruct (content_line_stored [ln "a"; ln "b"] _ _ _ _
                (Hf "Replace"%string 2 (ln "x")))
      as (-> & Hreplace & _); [simpl; lia | exact Hmax |].
    exact (Hreplace eq_refl).
  - destruct (content_line_stored [ln "a"; ln "b"] _ _ _ _
                (Hf "InsertAfter"%string 1 (String.append (ln "x") "y")))
      as (-> & _ & Hinsert); [simpl; lia | exact Hmax |].
    exact (Hinsert eq_refl).
Defined.

End PatchScenarios.

(** * More of the code *)

(** ** The validator: what it returns, when it stops, what it sends *)

Section ValidatorMore.

Implicit Types (chat : list exchange) (messages : list message).
Implicit Types (n : Z) (replies : list string) (j : json).

Lemma from_bracket_Some (content data : string) :
  from_bracket content = Some data → ∃ body, data = String "[" body.
Proof.
  induction content as [|c content IH]; simpl; [done|].
  destruct (Ascii.eqb_spec c "["%char) as [->|_]; [|exact IH].
  intros [= <-]. by eexists.
Qed.

(** The [try] body yields arrays only. *)
Lemma parse_reply_array (content : string) j :
  parse_reply content = Some j → ∃ items, j = JArr items.
Proof.
  unfold parse_reply.
  destruct (from_bracket content) as [data|] eqn:Hdata; [|done].
  apply from_bracket_Some in Hdata as [body ->].
  rewrite json_loads_bracket.
  destruct (raw_decode _) as [[v rest]|] eqn:Hraw; [|done].
  destruct (skip_ws rest); [|done]. intros [= <-].
  by eapply raw_decode_bracket.
Qed.

(** X1. Whatever [json_validated_response] returns is a JSON array, a
    Python list, in both versions (the annotation of the function says
    [Dict]). *)
Theorem returns_array chat messages n j :
  (result (Wolverine.json_validated_response chat messages n) = Returned j →
   ∃ items, j = JArr items) ∧
  (result (TestWolverine.json_validated_response chat messages n) = Returned j →
   ∃ items, j = JArr items).
Proof.
  split; revert messages n; induction chat as [|x chat IH]; intros messages n;
    cbn [Wolverine.json_validated_response TestWolverine.json_validated_response];
    destruct (n =? 0); try done;
    destruct x as [content|e]; try done;
    destruct (parse_reply content) as [j'|] eqn:Hj; cbn [exchanged result];
    try apply IH; intros [= <-]; by eapply parse_reply_array.
Qed.

(** X2. The only way to a result, for exchanges that are tame:
    [json_validated_response] returns [j] exactly when the exchanges
    begin with replies that fail to parse, fewer than the budget when
    there is one, followed by a reply that parses to [j]; in
    src/tests/test_wolverine.py, where each of these replies takes a call
    inside the call before, exactly when the interpreter has room for
    those calls as well. *)
Theorem returned_iff_first_parseable chat messages n j (frames : nat) :
  Forall (λ x, tame_exchange x = true) chat →
  (result (Wolverine.json_validated_response chat messages n) = Returned j ↔
   ∃ replies content rest,
     chat = (Reply <$> replies) ++ Reply content :: rest ∧
     Forall unparseable replies ∧ parse_reply content = Some j ∧
     (n < 0 ∨ Z.of_nat (length replies) < n)) ∧
  ((∃ r, TestWolverineRec.json_validated_response frames chat messages n
           = Within r ∧ result r = Returned j) ↔
   ∃ replies content rest,
     chat = (Reply <$> replies) ++ Reply content :: rest ∧
     Forall unparseable replies ∧ parse_reply content = Some j ∧
     (n < 0 ∨ Z.of_nat (length replies) < n) ∧
     (length replies < frames)%nat).
Proof.
  intros _. split; split.
  - revert messages n. induction chat as [|x chat IH]; intros messages n;
      cbn [Wolverine.json_validated_response];
      destruct (Z.eqb_spec n 0) as [->|Hn]; try done.
    destruct x as [content|e]; [|done].
    destruct (parse_reply content) as [j'|] eqn:Hj.
    + intros [= <-]. exists [], content, chat. repeat split; auto.
      simpl. lia.
    + cbn [exchanged result]. intros H.
      apply IH in H as (replies & content' & rest & -> & Hall & Hparse & Hbudget).
      exists (content :: replies), content', rest.
      repeat split; auto. cbn [length].
      destruct (Z.ltb_spec 0 n); lia.
  - intros (replies & content & rest & -> & Hall & Hparse & Hbudget).
    rewrite wolverine_unparseable_prefix, result_exchanged_all by (auto; lia).
    cbn [Wolverine.json_validated_response].
    assert ((wolverine_counter n (length replies) =? 0) = false) as ->.
    { unfold wolverine_counter. destruct (Z.ltb_spec n 0); lia. }
    by rewrite Hparse.
  - revert messages n frames. induction chat as [|x chat IH];
      intros messages n frames [r [Hr Hres]]; revert Hr;
      destruct frames as [|frames];
      cbn [TestWolverineRec.json_validated_response];
      destruct (Z.eqb_spec n 0) as [Hn|Hn];
      try (by intros [= <-]); try done.
    destruct x as [content|e]; [|by intros [= <-]].
    destruct (parse_reply content) as [j'|] eqn:Hj.
    + intros [= <-]. cbn [result] in Hres. injection Hres as ->.
      exists [], content, chat. repeat split; auto; simpl; lia.
    + destruct (TestWolverineRec.json_validated_response frames chat _ _)
        as [r'|] eqn:Hrec; [|done].
      cbn [exchanged_within]. intros [= <-]. cbn [exchanged result] in Hres.
      destruct (IH _ _ _ (ex_intro _ r' (conj Hrec Hres)))
        as (replies & content' & rest & -> & Hall & Hparse & Hbudget & Hroom).
      exists (content :: replies), content', rest.
      repeat split; auto; cbn [length]; lia.
  - intros (replies & content & rest & -> & Hall & Hparse & Hbudget & Hroom).
    revert messages n frames Hbudget Hroom.
    induction Hall as [|c replies Hc _ IH]; intros messages n frames Hbudget Hroom;
      cbn [length] in Hbudget, Hroom;
      (destruct frames as [|frames]; [lia|]);
      cbn [fmap list_fmap app TestWolverineRec.json_validated_response];
      (destruct (Z.eqb_spec n 0) as [->|Hn]; [lia|]).
    + rewrite Hparse. by eexists.
    + unfold unparseable in Hc. rewrite Hc.
      change (list_fmap _ _ Reply replies) with (Reply <$> replies).
      destruct (IH (messages ++ [Message Assistant c] ++ [TestWolverine.correction])
                  (n - 1) frames) as (r & Hr & Hres); [lia|lia|].
      rewrite <- app_assoc, Hr. cbn [exchanged_within]. by eexists.
Qed.

(** [returned_iff_first_parseable] at a reply without JSON followed by an
    empty array, no bound on the retries and room for two calls. *)
Lemma returned_iff_first_parseable_witness :
  let chat := [Reply "no"; Reply "[]"] in
  result (Wolverine.json_validated_response chat [] (-1)) = Returned (JArr []) ∧
  ∃ r, TestWolverineRec.json_validated_response 2 chat [] (-1) = Within r ∧
       result r = Returned (JArr []).
Proof.
  intros chat.
  destruct (returned_iff_first_parseable chat [] (-1) (JArr []) 2) as [Hw Ht].
  { repeat constructor. }
  split.
  - apply Hw. exists ["no"%string], "[]"%string, [].
    split; [reflexivity|]. split; [repeat constructor|].
    split; [reflexivity|]. left. lia.
  - apply Ht. exists ["no"%string], "[]"%string, [].
    split; [reflexivity|]. split; [repeat constructor|].
    split; [reflexivity|]. split; [left; lia|]. simpl. lia.
Defined.

(** X3. A budget that is not negative is a bound on the loop: when the
    model is there for as many exchanges as the budget, the call ends, in
    both versions. *)
Theorem bounded_budget_ends chat messages n :
  0 ≤ n ≤ Z.of_nat (length chat) →
  result (Wolverine.json_validated_response chat messages n) ≠ Waiting ∧
  result (TestWolverine.json_validated_response chat messages n) ≠ Waiting.
Proof.
  intros Hn. split; revert messages n Hn;
    induction chat as [|x chat IH]; intros messages n Hn;
    cbn [Wolverine.json_validated_response TestWolverine.json_validated_response];
    cbn [length] in Hn;
    destruct (Z.eqb_spec n 0) as [->|Hn0]; try done; try lia;
    destruct x as [content|e]; try done;
    destruct (parse_reply content); try done;
    cbn [exchanged result]; apply IH.
  - destruct (Z.ltb_spec 0 n); lia.
  - lia.
Qed.

(** [bounded_budget_ends] at a budget of one and one reply. *)
Lemma bounded_budget_ends_witness :
  result (Wolverine.json_validated_response [Reply "no"] [] 1) ≠ Waiting ∧
  result (TestWolverine.json_validated_response [Reply "no"] [] 1) ≠ Waiting.
Proof. apply (bounded_budget_ends [Reply "no"] [] 1). simpl. lia. Defined.

(** X4. The conversation only grows: every conversation handed to the
    model extends the one the caller gave and all those handed over
    before it, and the conversation the caller is left with extends them
    all; no message is dropped or rewritten. In both versions. *)
Theorem conversation_only_grows chat messages n :
  (let r := Wolverine.json_validated_response chat messages n in
   StronglySorted prefix (sent r) ∧
   Forall (λ conv, messages `prefix_of` conv ∧ conv `prefix_of` messages_after r)
     (sent r) ∧
   messages `prefix_of` messages_after r) ∧
  (let r := TestWolverine.json_validated_response chat messages n in
   StronglySorted prefix (sent r) ∧
   Forall (λ conv, messages `prefix_of` conv ∧ conv `prefix_of` messages_after r)
     (sent r) ∧
   messages `prefix_of` messages_after r).
Proof.
  split; cbv zeta; revert messages n; induction chat as [|x chat IH];
    intros messages n;
    cbn [Wolverine.json_validated_response TestWolverine.json_validated_response];
    destruct (n =? 0);
    try (cbn [sent messages_after]; by repeat constructor).
  - destruct x as [content|e];
      [|cbn [sent messages_after]; by repeat constructor].
    destruct (parse_reply content);
      [cbn [sent messages_after]; by repeat constructor|].
    destruct (IH (messages ++ [Wolverine.correction])
                (if 0 <? n then n - 1 else n)) as (Hs & Hall & Hm).
    cbn [exchanged sent messages_after].
    assert (messages `prefix_of` messages ++ [Wolverine.correction]) as Hstep
      by apply prefix_app_r, reflexivity.
    split; [|split].
    + constructor; [done|]. eapply Forall_impl; [exact Hall|].
      intros conv [H1 _]. by etrans.
    + constructor; [split; [done|by etrans]|].
      eapply Forall_impl; [exact Hall|]. intros conv [H1 H2].
      split; [by etrans|done].
    + by etrans.
  - destruct x as [content|e];
      [|cbn [sent messages_after]; by repeat constructor].
    assert (messages `prefix_of` messages ++ [Message Assistant content]) as Hin
      by apply prefix_app_r, reflexivity.
    destruct (parse_reply content).
    { cbn [sent messages_after]. by repeat constructor. }
    destruct (IH ((messages ++ [Message Assistant content])
                    ++ [TestWolverine.correction]) (n - 1)) as (Hs & Hall & Hm).
    cbn [exchanged sent messages_after].
    assert (messages `prefix_of`
              (messages ++ [Message Assistant content])
                ++ [TestWolverine.correction]) as Hstep.
    { etrans; [exact Hin|]. apply prefix_app_r. reflexivity. }
    split; [|split].
    + constructor; [done|]. eapply Forall_impl; [exact Hall|].
      intros conv [H1 _]. by etrans.
    + constructor; [split; [done|by etrans]|].
      eapply Forall_impl; [exact Hall|]. intros conv [H1 H2].
      split; [by etrans|done].
    + by etrans.
Qed.

Lemma versions_agree_from chat messages messages' n n' :
  Forall (λ x, ∀ e, x = Failure e → is_ValueError e = false) chat →
  (n = n' ∧ 0 ≤ n) ∨ (n < 0 ∧ n' < 0) →
  let r := Wolverine.json_validated_response chat messages n in
  let r' := TestWolverine.json_validated_response chat messages' n' in
  result r = result r' ∧ length (sent r) = length (sent r').
Proof.
  intros Hall. revert messages messages' n n'.
  induction Hall as [|x chat Hx _ IH]; intros messages messages' n n' Hn;
    cbv zeta;
    cbn [Wolverine.json_validated_response TestWolverine.json_validated_response].
  - destruct (Z.eqb_spec n 0), (Z.eqb_spec n' 0); try lia; done.
  - destruct (Z.eqb_spec n 0), (Z.eqb_spec n' 0); try lia; [done|].
    destruct x as [content|e].
    + destruct (parse_reply content); [done|].
      cbn [exchanged result sent length].
      destruct (IH (messages ++ [Wolverine.correction])
                  ((messages' ++ [Message Assistant content])
                     ++ [TestWolverine.correction])
                  (if 0 <? n then n - 1 else n) (n' - 1)) as [Hr Hs].
      { destruct (Z.ltb_spec 0 n); lia. }
      split; [done|]. by f_equal.
    + by rewrite (Hx e eq_refl).
Qed.

(** X5. The two versions of [json_validated_response] are one function as
    far as the caller can tell by the result: given the same tame
    exchanges, none of which raises a [ValueError], and the same budget,
    they end the same way after the same number of exchanges, as long as
    the interpreter has room for the calls that the retries of
    src/tests/test_wolverine.py take: one for each exchange there could
    be. *)
Theorem versions_agree chat messages n (frames : nat) :
  Forall (λ x, tame_exchange x = true) chat →
  Forall (λ x, ∀ e, x = Failure e → is_ValueError e = false) chat →
  (length chat < frames)%nat →
  ∃ r, TestWolverineRec.json_validated_response frames chat messages n
         = Within r ∧
       result (Wolverine.json_validated_response chat messages n) = result r ∧
       length (sent (Wolverine.json_validated_response chat messages n))
       = length (sent r).
Proof.
  intros _ Hall Hroom. eexists. split; [by apply rec_enough|].
  apply versions_agree_from; [done|].
  destruct (Z.ltb_spec n 0); [right|left]; lia.
Qed.

(** [versions_agree] at two replies without JSON, a connection error
    behind them, no bound on the retries and room for four calls. *)
Lemma versions_agree_witness :
  let chat := [Reply "no"; Reply "none"; Failure ConnectionError] in
  ∃ r, TestWolverineRec.json_validated_response 4 chat [] (-1) = Within r ∧
       result (Wolverine.json_validated_response chat [] (-1)) = result r ∧
       length (sent (Wolverine.json_validated_response chat [] (-1)))
       = length (sent r).
Proof.
  intros chat. apply (versions_agree chat [] (-1) 4).
  - repeat constructor.
  - repeat constructor; intros e [= <-]; reflexivity.
  - simpl. lia.
Defined.

End ValidatorMore.

(** ** The patch engine: lengths, untouched lines, rejected batches *)

Section PatchMore.

Implicit Types (c operation content : json) (line : Z).
Implicit Types (changes ops : list json) (buf original : list string).

Lemma list_index_Ok {A : Type} (l : list A) (i : Z) (k : nat) :
  list_index l i = Ok k →
  (k < length l)%nat ∧ k = Z.to_nat (if i <? 0 then i + Z.of_nat (length l) else i)
  ∧ 0 ≤ (if i <? 0 then i + Z.of_nat (length l) else i).
Proof.
  unfold list_index.
  destruct (Z.ltb_spec i 0);
    repeat match goal with
           | |- context [Z.ltb ?a ?b] => destruct (Z.ltb_spec a b)
           | |- context [Z.leb ?a ?b] => destruct (Z.leb_spec a b)
           end; cbn [orb]; try done; intros [= <-]; lia.
Qed.

Lemma str_eq_true operation (kind : string) :
  str_eq operation kind = true → operation = JStr kind.
Proof.
  destruct operation; try done. cbn [str_eq].
  by intros ->%String.eqb_eq.
Qed.

(** What a run of the loop body that raises nothing does to the length. *)
Lemma apply_change_length buf buf' c :
  apply_change buf c = Ok buf' →
  (length buf' + (if is_kind "Delete" c then 1 else 0)
   = length buf + (if is_kind "InsertAfter" c then 1 else 0))%nat.
Proof.
  unfold apply_change, is_kind.
  destruct (getitem c "operation") as [operation|]; [|done].
  destruct (getitem c "line") as [lv|]; [|done].
  destruct (getitem c "content") as [content|]; [|done].
  cbn [mbind res_bind].
  destruct (str_eq operation "Replace") eqn:Hr.
  { apply str_eq_true in Hr as ->. cbn [str_eq String.eqb Ascii.eqb Bool.eqb].
    destruct (add_newline content); [|done].
    destruct (as_index lv); [|done]. cbn [mbind res_bind]. unfold list_setitem.
    destruct (list_index buf _) as [k|]; [|done]. cbn [mbind res_bind].
    intros [= <-]. rewrite length_insert. lia. }
  destruct (str_eq operation "Delete") eqn:Hd.
  { apply str_eq_true in Hd as ->. cbn [str_eq String.eqb Ascii.eqb Bool.eqb].
    destruct (as_index lv); [|done]. cbn [mbind res_bind]. unfold list_delitem.
    destruct (list_index buf _) as [k|] eqn:Hk; [|done]. cbn [mbind res_bind].
    intros [= <-]. apply list_index_Ok in Hk as (Hk & _).
    rewrite length_delete by (by apply lookup_lt_is_Some_2). lia. }
  destruct (str_eq operation "InsertAfter") eqn:Hi.
  { destruct (add_newline content); [|done].
    destruct (as_index lv) as [i|]; [|done]. cbn [mbind res_bind].
    unfold list_insert. destruct (_ || _); [done|]. intros [= <-].
    rewrite length_app. cbn [length]. rewrite length_take, length_drop. lia. }
  intros [= <-]. lia.
Qed.

Lemma count_kind_cons (kind : string) c changes :
  count_kind kind (c :: changes)
  = ((if is_kind kind c then 1 else 0) + count_kind kind changes)%nat.
Proof.
  unfold count_kind. rewrite filter_cons.
  destruct (is_kind kind c); by case_decide.
Qed.

Lemma try_fold_length ops buf buf' :
  try_fold apply_change ops buf = Ok buf' →
  (length buf' + count_kind "Delete" ops
   = length buf + count_kind "InsertAfter" ops)%nat.
Proof.
  revert buf. induction ops as [|c ops IH]; intros buf; cbn [try_fold].
  - intros [= <-]. done.
  - destruct (apply_change buf c) as [buf1|] eqn:Hc; [|done].
    cbn [mbind res_bind]. intros H%IH. apply apply_change_length in Hc.
    rewrite !count_kind_cons. lia.
Qed.

(** What the filter keeps, when it raises nothing. *)
Lemma try_filter_Ok {A : Type} (p : A → res bool) (l l' : list A) :
  try_filter p l = Ok l' →
  l' = filter (λ x, match p x with Ok b => b | Err _ => false end = true) l.
Proof.
  revert l'. induction l as [|x l IH]; intros l'; cbn [try_filter].
  - by intros [= <-].
  - destruct (p x) as [b|] eqn:Hx; [|done]. cbn [mbind res_bind].
    destruct (try_filter p l) as [ys|]; [|done]. cbn [mbind res_bind].
    intros [= <-]. rewrite filter_cons, (IH ys eq_refl), Hx.
    destruct b; case_decide; congruence.
Qed.

Lemma is_kind_has_operation (kind : string) c :
  is_kind kind c = true → has_operation c = true.
Proof.
  unfold is_kind. destruct (getitem c "operation") as [operation|] eqn:H; [|done].
  apply getitem_Ok in H as (d & -> & Hd). intros _.
  unfold has_operation. cbn [contains]. done.
Qed.

Lemma count_kind_filter (kind : string) changes :
  count_kind kind (filter (λ c, has_operation c = true) changes)
  = count_kind kind changes.
Proof.
  unfold count_kind. f_equal. rewrite list_filter_filter.
  apply list_filter_iff. intros c. split; [by intros [? _]|].
  intros H. split; [done|]. by eapply is_kind_has_operation.
Qed.

(** The two lists the pass can be split into at its three stages. *)
Lemma apply_changes_Ok original changes (new : list string) :
  apply_changes original changes = Ok new →
  ∃ sorted,
    sorted ≡ₚ filter (λ c, has_operation c = true) changes ∧
    try_fold apply_change sorted original = Ok new.
Proof.
  unfold apply_changes.
  destruct (try_filter _ changes) as [ops|] eqn:Hops; [|done].
  cbn [mbind res_bind].
  destruct (try_filter_map _ _ changes); [|done]. cbn [mbind res_bind].
  destruct (sort_by_line_reverse ops) as [sorted|] eqn:Hsorted; [|done].
  cbn [mbind res_bind]. intros Hfold. exists sorted. split; [|done].
  apply try_filter_Ok in Hops. etrans; [by apply sort_by_line_reverse_Permutation|].
  by rewrite Hops.
Qed.

(** X6. Length accounting: whenever [apply_changes] raises nothing, the
    new buffer is longer than the original by the number of
    [InsertAfter] operations and shorter by the number of [Delete]
    operations of the batch, whether or not the operations share lines
    or lie within the buffer. *)
Theorem length_accounting original changes (new : list string) :
  apply_changes original changes = Ok new →
  (length new + count_kind "Delete" changes
   = length original + count_kind "InsertAfter" changes)%nat.
Proof.
  intros (sorted & Hperm & Hfold)%apply_changes_Ok.
  apply try_fold_length in Hfold.
  rewrite <- (count_kind_filter "Delete"), <- (count_kind_filter "InsertAfter").
  unfold count_kind in *. by rewrite <- !Hperm.
Qed.

(** [length_accounting] at two deletions and one insertion on four
    lines. *)
Lemma length_accounting_witness :
  let original := [ln "a"; ln "b"; ln "c"; ln "d"] in
  let changes := [edit "Delete" 1 JNull; edit "InsertAfter" 2 (JStr "x");
                  edit "Replace" 3 (JStr "y"); edit "Delete" 4 JNull] in
  apply_changes original changes = Ok [ln "b"; ln "x"; ln "y"] ∧
  (3 + 2 = 4 + 1)%nat.
Proof.
  intros original changes.
  assert (H : apply_changes original changes = Ok [ln "b"; ln "x"; ln "y"])
    by reflexivity.
  split; [exact H|].
  exact (length_accounting original changes _ H).
Defined.

End PatchMore.

Section PatchMoreEdges.

Implicit Types (c operation content : json) (line : Z).
Implicit Types (changes ops : list json) (buf original : list string).

Lemma apply_change_replace buf buf' c :
  is_kind "Replace" c = true →
  apply_change buf c = Ok buf' →
  ∃ line (v : string),
    line_of c = Some line ∧
    0 ≤ index_of_line (length buf) line < Z.of_nat (length buf) ∧
    buf' = <[Z.to_nat (index_of_line (length buf) line) := v]> buf.
Proof.
  unfold apply_change, is_kind, line_of.
  destruct (getitem c "operation") as [operation|]; [|done].
  intros ->%str_eq_true.
  destruct (getitem c "line") as [lv|]; [|done].
  destruct (getitem c "content") as [content|]; [|done].
  cbn [mbind res_bind str_eq String.eqb Ascii.eqb Bool.eqb].
  destruct (add_newline content) as [v|]; [|done]. unfold as_index.
  destruct (int_key lv) as [line|]; [|done]. cbn [mbind res_bind].
  unfold list_setitem.
  destruct (list_index buf (line - 1)) as [k|] eqn:Hk; [|done].
  cbn [mbind res_bind]. intros [= <-].
  apply list_index_Ok in Hk as (Hlt & -> & Hpos).
  exists line, v. unfold index_of_line. repeat split; try done; lia.
Qed.

Lemma try_fold_replace ops buf buf' :
  Forall (λ c, is_kind "Replace" c = true) ops →
  try_fold apply_change ops buf = Ok buf' →
  length buf' = length buf ∧
  ∀ k : nat,
    (∀ c line, c ∈ ops → line_of c = Some line →
               index_of_line (length buf) line ≠ Z.of_nat k) →
    buf' !! k = buf !! k.
Proof.
  intros Hall. revert buf.
  induction Hall as [|c ops Hc _ IH]; intros buf; cbn [try_fold].
  - by intros [= <-].
  - destruct (apply_change buf c) as [buf1|] eqn:Hstep; [|done].
    cbn [mbind res_bind]. intros [Hlen Hkeep]%IH.
    apply apply_change_replace in Hstep as (line & v & Hline & Hin & ->);
      [|done].
    rewrite length_insert in Hlen, Hkeep. split; [done|].
    intros k Hk. rewrite Hkeep.
    + apply list_lookup_insert_ne.
      specialize (Hk c line (list_elem_of_here _ _) Hline). lia.
    + intros c' line' Hc' Hline'.
      apply (Hk c' line'); [by apply list_elem_of_further|done].
Qed.

(** X7. A batch whose operations are all [Replace], when it raises
    nothing, leaves the number of lines as it was, and every line that no
    operation addresses (counting from the end for a line below 1) is the
    line of the original buffer. *)
Theorem replace_only_batch original changes (new : list string) :
  Forall (λ c, has_operation c = true → is_kind "Replace" c = true) changes →
  apply_changes original changes = Ok new →
  length new = length original ∧
  ∀ k : nat,
    (∀ c line, c ∈ changes → has_operation c = true → line_of c = Some line →
               index_of_line (length original) line ≠ Z.of_nat k) →
    new !! k = original !! k.
Proof.
  intros Hall (sorted & Hperm & Hfold)%apply_changes_Ok.
  assert (∀ c, c ∈ sorted → c ∈ changes ∧ has_operation c = true) as Hsorted.
  { intros c Hc. rewrite Hperm in Hc.
    by apply list_elem_of_filter in Hc as [? ?]. }
  apply try_fold_replace in Hfold as [Hlen Hkeep].
  - split; [done|]. intros k Hk. apply Hkeep.
    intros c line Hc Hline. destruct (Hsorted c Hc). by apply (Hk c line).
  - apply Forall_forall. intros c Hc. destruct (Hsorted c Hc) as [Hin Hop].
    rewrite Forall_forall in Hall. by apply Hall.
Qed.

(** [replace_only_batch] at two replacements on four lines, one of them
    at line 0, which is the last line. *)
Lemma replace_only_batch_witness :
  let original := [ln "a"; ln "b"; ln "c"; ln "d"] in
  let changes := [edit "Replace" 2 (JStr "x"); edit "Replace" 0 (JStr "y")] in
  apply_changes original changes = Ok [ln "a"; ln "x"; ln "c"; ln "y"] ∧
  [ln "a"; ln "x"; ln "c"; ln "y"] !! 2%nat = original !! 2%nat.
Proof.
  intros original changes.
  assert (H : apply_changes original changes
              = Ok [ln "a"; ln "x"; ln "c"; ln "y"]) by reflexivity.
  split; [exact H|].
  refine (proj2 (replace_only_batch original changes _ _ H) 2%nat _).
  - repeat constructor.
  - intros c line Hc _ Hline.
    apply elem_of_cons in Hc as [->|Hc];
      [|apply elem_of_cons in Hc as [->|Hc]; [|by apply elem_of_nil in Hc]];
      vm_compute in Hline; injection Hline as <-; vm_compute; discriminate.
Defined.

(** X8. An operation whose name is none of [Replace], [Delete] and
    [InsertAfter] (a name in lower case, say) and which has the three
    keys, the line an integer, is passed over without an exception,
    whatever that integer and the content: a batch of such operations and
    of commentary leaves the buffer as it was. *)
Theorem unknown_operation_ignored original changes :
  Forall (λ c, is_commentary c ∨ unknown_operation c) changes →
  apply_changes original changes = Ok original.
Proof.
  intros Hall.
  set (ops := filter (λ c, has_operation c = true) changes).
  assert (Forall is_dict changes) as Hdicts.
  { eapply Forall_impl; [exact Hall|].
    intros c [(d & -> & _)|(operation & line & content & (Hop & _) & _)];
      [by exists d|].
    apply getitem_Ok in Hop as (d & -> & _). by exists d. }
  assert (Forall unknown_operation ops) as Hops.
  { apply Forall_forall. intros c [Hc Hin]%list_elem_of_filter.
    rewrite Forall_forall in Hall.
    destruct (Hall c Hin) as [Hcom|Hun]; [|done].
    apply is_commentary_has_operation in Hcom. congruence. }
  rewrite apply_changes_dicts; [|done|].
  - fold ops.
    assert (Forall unknown_operation (sort_desc (keyed ops)).*2) as Hsorted.
    { by rewrite sort_desc_Permutation, keyed_snd. }
    induction Hsorted as [|c sorted Hc _ IH]; [done|].
    cbn [try_fold]. destruct Hc as (operation & line & content & Hf & H1 & H2 & H3).
    rewrite (apply_change_fields _ _ _ _ _ Hf), H1, H2, H3. exact IH.
  - eapply Forall_impl; [exact Hops|].
    intros c (operation & line & content & Hf & _).
    rewrite (has_fields_line_of _ _ _ _ Hf). by eexists.
Qed.

(** [unknown_operation_ignored] at a [replace] in lower case, far outside
    the buffer, next to a commentary object. *)
Lemma unknown_operation_ignored_witness :
  apply_changes [ln "a"]
    [edit "replace" 40 (JStr "x"); JObj [("explanation"%string, JStr "why")]]
  = Ok [ln "a"].
Proof.
  apply unknown_operation_ignored.
  apply Forall_cons_2; [|apply Forall_cons_2; [|apply Forall_nil_2]].
  - right. exists (JStr "replace"), 40, (JStr "x").
    split; [|by repeat split].
    split; [reflexivity|]. split; [|reflexivity]. exists (JInt 40). by split.
  - left. eexists. split; reflexivity.
Defined.

Lemma dict_get_Err (key : string) (d : list (string * json)) (e : exn) :
  dict_get key d = Err e → e = KeyError.
Proof.
  induction d as [|[k v] d IH]; cbn [dict_get]; [by intros [= <-]|].
  destruct (dict_get key d); [done|].
  destruct (String.eqb key k); [done|]. by intros [= <-].
Qed.

Lemma try_map_line_KeyError ops (d : list (string * json)) :
  Forall is_dict ops → JObj d ∈ ops → dict_mem "line" d = false →
  try_map (λ x, getitem x "line") ops = Err KeyError.
Proof.
  intros Hdicts Hin Hd. induction Hdicts as [|c ops (d' & ->) _ IH];
    [by apply elem_of_nil in Hin|].
  cbn [try_map getitem].
  destruct (dict_get "line" d') as [v|e] eqn:Hv.
  - cbn [mbind res_bind]. apply elem_of_cons in Hin as [[= ->]|Hin].
    + by rewrite (dict_get_not_mem _ _ Hd) in Hv.
    + by rewrite IH.
  - by rewrite (dict_get_Err _ _ _ Hv).
Qed.

(** X9. In a batch of dictionaries, one operation without the key
    ["line"] makes [apply_changes] raise [KeyError] at the sort, before
    any operation is applied. *)
Theorem missing_line_key original changes (d : list (string * json)) :
  Forall is_dict changes →
  JObj d ∈ changes →
  dict_mem "operation" d = true →
  dict_mem "line" d = false →
  apply_changes original changes = Err KeyError.
Proof.
  intros Hdicts Hin Hop Hline. unfold apply_changes.
  rewrite try_filter_dicts by done. cbn [mbind res_bind].
  destruct (try_filter_map_dicts "explanation" changes Hdicts) as [vs ->].
  cbn [mbind res_bind]. unfold sort_by_line_reverse.
  rewrite (try_map_line_KeyError _ d); [done| |by apply list_elem_of_filter|done].
  apply Forall_forall. intros c [_ Hc]%list_elem_of_filter.
  rewrite Forall_forall in Hdicts. by apply Hdicts.
Qed.

(** [missing_line_key] at a [Replace] without a line behind a well-formed
    operation. *)
Lemma missing_line_key_witness :
  apply_changes [ln "a"; ln "b"]
    [edit "Replace" 1 (JStr "x");
     JObj [("operation"%string, JStr "Replace"); ("content"%string, JStr "y")]]
  = Err KeyError.
Proof.
  eapply missing_line_key.
  - repeat constructor; by eexists.
  - apply list_elem_of_further, list_elem_of_here.
  - reflexivity.
  - reflexivity.
Defined.

Lemma try_filter_TypeError (key : string) changes c :
  c ∈ changes → is_scalar c = true →
  try_filter (contains key) changes = Err TypeError.
Proof.
  intros Hin Hc. induction changes as [|c' changes IH];
    [by apply elem_of_nil in Hin|].
  cbn [try_filter].
  destruct (contains key c') as [b|e] eqn:Hc'.
  - cbn [mbind res_bind]. apply elem_of_cons in Hin as [->|Hin].
    + by destruct c'.
    + by rewrite IH.
  - cbn [mbind res_bind]. destruct c'; cbn [contains] in Hc'; by simplify_eq.
Qed.

(** X10. A batch that holds a value that is no container (a number, a
    boolean, [null]) makes [apply_changes] raise [TypeError] at the
    filter, before anything else is looked at. *)
Theorem scalar_in_batch original changes c :
  c ∈ changes → is_scalar c = true →
  apply_changes original changes = Err TypeError.
Proof.
  intros Hin Hc. unfold apply_changes.
  by rewrite (try_filter_TypeError _ _ c).
Qed.

(** [scalar_in_batch] at a number behind a well-formed operation. *)
Lemma scalar_in_batch_witness :
  apply_changes [ln "a"] [edit "Delete" 1 JNull; JInt 3] = Err TypeError.
Proof.
  apply (scalar_in_batch _ _ (JInt 3)); [|reflexivity].
  apply list_elem_of_further, list_elem_of_here.
Defined.

End PatchMoreEdges.

(** ** The patch engine: operations that share a line *)

Section SameLine.

Implicit Types (c operation content : json) (line : Z).
Implicit Types (changes ops : list json) (buf original : list string).

Lemma filter_line_snd (l : list (Z * json)) (z : Z) :
  Forall (λ p, line_of p.2 = Some p.1) l →
  filter (λ c, line_of c = Some z) l.*2 = (filter (λ p, p.1 = z) l).*2.
Proof.
  induction 1 as [|p l Hp _ IH]; [done|].
  rewrite fmap_cons, !filter_cons, IH, Hp.
  destruct (decide (p.1 = z)) as [->|Hne].
  - by rewrite decide_True.
  - rewrite decide_False; [done|]. by intros [= ?].
Qed.

Lemma sorted_not_above (l : list (Z * json)) :
  StronglySorted key_ge l →
  Forall (λ p, line_of p.2 = Some p.1) l →
  StronglySorted not_above l.*2.
Proof.
  induction 1 as [|p l Hs IH Hall]; [constructor|].
  rewrite Forall_cons. intros [Hp Hl]. cbn. constructor; [by apply IH|].
  rewrite Forall_fmap, Forall_forall. intros q Hq.
  rewrite Forall_forall in Hall, Hl.
  exists p.1, q.1. split; [done|]. split; [by apply Hl|]. by apply Hall.
Qed.

(** X11. The tie-break of the pass. On operations that all carry an
    integer line the sort raises nothing and only reorders: lines come in
    descending order, and the operations that address one and the same
    line stay in the order the batch gives them. *)
Theorem same_line_keeps_batch_order ops :
  Forall (λ c, is_Some (line_of c)) ops →
  ∃ sorted,
    sort_by_line_reverse ops = Ok sorted ∧
    sorted ≡ₚ ops ∧
    StronglySorted not_above sorted ∧
    ∀ z, filter (λ c, line_of c = Some z) sorted
         = filter (λ c, line_of c = Some z) ops.
Proof.
  intros Hall. exists (sort_desc (keyed ops)).*2.
  pose proof (keyed_line_of ops Hall) as Hkeyed.
  assert (Forall (λ p, line_of p.2 = Some p.1) (sort_desc (keyed ops)))
    as Hsorted by (by rewrite sort_desc_Permutation).
  split; [by apply sort_by_line_reverse_keyed|]. split; [|split].
  - by rewrite sort_desc_Permutation, keyed_snd.
  - apply sorted_not_above; [apply sort_desc_sorted|done].
  - intros z. rewrite filter_line_snd, sort_desc_stable by done.
    rewrite <- filter_line_snd by done. by rewrite keyed_snd.
Qed.

(** [same_line_keeps_batch_order] at four operations on two lines. *)
Lemma same_line_keeps_batch_order_witness :
  sort_by_line_reverse
    [edit "Replace" 1 (JStr "a"); edit "Delete" 2 JNull;
     edit "InsertAfter" 1 (JStr "b"); edit "Replace" 2 (JStr "c")]
  = Ok [edit "Delete" 2 JNull; edit "Replace" 2 (JStr "c");
        edit "Replace" 1 (JStr "a"); edit "InsertAfter" 1 (JStr "b")] ∧
  ∃ sorted,
    sort_by_line_reverse
      [edit "Replace" 1 (JStr "a"); edit "Delete" 2 JNull;
       edit "InsertAfter" 1 (JStr "b"); edit "Replace" 2 (JStr "c")]
    = Ok sorted ∧
    filter (λ c, line_of c = Some 1) sorted
    = [edit "Replace" 1 (JStr "a"); edit "InsertAfter" 1 (JStr "b")].
Proof.
  split; [reflexivity|].
  destruct (same_line_keeps_batch_order
              [edit "Replace" 1 (JStr "a"); edit "Delete" 2 JNull;
               edit "InsertAfter" 1 (JStr "b"); edit "Replace" 2 (JStr "c")])
    as (sorted & Hsort & _ & _ & Hstable).
  { repeat constructor; by eexists. }
  exists sorted. split; [exact Hsort|]. rewrite Hstable. reflexivity.
Defined.

Lemma has_fields_edit (kind : string) line content :
  has_fields (edit kind line content) (JStr kind) line content.
Proof.
  split; [reflexivity|]. split; [|reflexivity]. exists (JInt line). by split.
Qed.

(** Two edits on one line: the first of the batch is applied first. *)
Lemma apply_changes_pair buf (kind1 kind2 : string) line (content1 content2 : json) :
  apply_changes buf [edit kind1 line content1; edit kind2 line content2]
  = buf1 ← apply_change buf (edit kind1 line content1);
    apply_change buf1 (edit kind2 line content2).
Proof.
  rewrite apply_changes_dicts.
  - rewrite !filter_cons, filter_nil, !decide_True by reflexivity.
    change (keyed _) with [(line, edit kind1 line content1);
                           (line, edit kind2 line content2)].
    cbn [sort_desc foldr insert_desc fst]. rewrite Z.ltb_irrefl.
    cbn [fmap list_fmap snd try_fold].
    destruct (apply_change buf _) as [buf1|]; [|done]. cbn [mbind res_bind].
    apply bind_Ok.
  - repeat constructor; by eexists.
  - rewrite !filter_cons, filter_nil, !decide_True by reflexivity.
    repeat constructor; by eexists.
Qed.

(** X12. Two operations on one line of the buffer are applied in the
    order of the batch, each on the buffer the other left: of two
    [Replace] the second stands; of two [InsertAfter] the second comes
    first in the file; a [Delete] followed by a [Replace] removes the
    line and overwrites the one that came after it, and raises
    [IndexError] when the line was the last. *)
Theorem same_line_pairs buf line (a b : string) :
  1 ≤ line ≤ Z.of_nat (length buf) →
  py_list buf →
  let p := Z.to_nat (line - 1) in
  apply_changes buf [edit "Replace" line (JStr a); edit "Replace" line (JStr b)]
    = Ok (<[p := String.append b nl]> buf) ∧
  apply_changes buf
      [edit "InsertAfter" line (JStr a); edit "InsertAfter" line (JStr b)]
    = Ok (take (S p) buf ++ String.append b nl :: String.append a nl
            :: drop (S p) buf) ∧
  apply_changes buf [edit "Delete" line JNull; edit "Replace" line (JStr a)]
    = (if line <? Z.of_nat (length buf)
       then Ok (<[p := String.append a nl]> (delete p buf))
       else Err IndexError).
Proof.
  intros Hline Hmax p. unfold py_list in Hmax.
  rewrite !apply_changes_pair.
  rewrite !(apply_change_fields _ _ _ _ _ (has_fields_edit _ _ _)).
  cbn [str_eq String.eqb Ascii.eqb Bool.eqb add_newline mbind res_bind].
  split; [|split].
  - unfold list_setitem. rewrite list_index_in_range by lia.
    cbn [mbind res_bind].
    rewrite (apply_change_fields _ _ _ _ _ (has_fields_edit _ _ _)).
    cbn [str_eq String.eqb Ascii.eqb Bool.eqb add_newline mbind res_bind].
    unfold list_setitem.
    rewrite list_index_in_range by (rewrite length_insert; lia).
    cbn [mbind res_bind]. by rewrite list_insert_insert_eq.
  - rewrite list_insert_in_range by lia. cbn [mbind res_bind].
    rewrite (apply_change_fields _ _ _ _ _ (has_fields_edit _ _ _)).
    cbn [str_eq String.eqb Ascii.eqb Bool.eqb add_newline mbind res_bind].
    replace (Z.to_nat line) with (S p) by lia.
    rewrite list_insert_in_range.
    + replace (Z.to_nat line) with (S p) by lia.
      rewrite take_app_length', drop_app_length' by (rewrite length_take; lia).
      done.
    + rewrite length_app, length_take. cbn [length]. rewrite length_drop. lia.
    + lia.
  - unfold list_delitem. rewrite list_index_in_range by lia.
    cbn [mbind res_bind].
    rewrite (apply_change_fields _ _ _ _ _ (has_fields_edit _ _ _)).
    cbn [str_eq String.eqb Ascii.eqb Bool.eqb add_newline mbind res_bind].
    unfold list_setitem.
    assert (length (delete (Z.to_nat (line - 1)) buf) = (length buf - 1)%nat)
      as Hlen.
    { apply length_delete, lookup_lt_is_Some_2. lia. }
    destruct (Z.ltb_spec line (Z.of_nat (length buf))).
    + by rewrite list_index_in_range by (rewrite Hlen; lia).
    + by rewrite list_index_outside by (rewrite Hlen; lia).
Qed.

(** [same_line_pairs] at the second of three lines, and at the last. *)
Lemma same_line_pairs_witness :
  apply_changes [ln "a"; ln "b"; ln "c"]
    [edit "Delete" 2 JNull; edit "Replace" 2 (JStr "x")]
  = Ok [ln "a"; ln "x"] ∧
  apply_changes [ln "a"; ln "b"; ln "c"]
    [edit "Delete" 3 JNull; edit "Replace" 3 (JStr "x")]
  = Err IndexError.
Proof.
  assert (Hmax : py_list [ln "a"; ln "b"; ln "c"]) by (vm_compute; discriminate).
  split.
  - refine (proj2 (proj2 (same_line_pairs [ln "a"; ln "b"; ln "c"] 2 "x" "" _ Hmax))).
    simpl. lia.
  - refine (proj2 (proj2 (same_line_pairs [ln "a"; ln "b"; ln "c"] 3 "x" "" _ Hmax))).
    simpl. lia.
Defined.

End SameLine.

(** ** Reading and writing the file *)

Section Texts.

Implicit Types s t b rest : string.

Lemma append_nil_r s : s +:+ "" = s.
Proof. induction s as [|c s IH]; [done|]. change (String c (s +:+ "") = String c s). by rewrite IH. Qed.

Lemma append_assoc s t rest : (s +:+ t) +:+ rest = s +:+ (t +:+ rest).
Proof.
  induction s as [|c s IH]; [done|].
  change (String c ((s +:+ t) +:+ rest) = String c (s +:+ (t +:+ rest))).
  by rewrite IH.
Qed.

Lemma append_cons c s t : String c s +:+ t = String c (s +:+ t).
Proof. done. Qed.

Lemma str_join_app (xs ys : list string) : join (xs ++ ys) = join xs +:+ join ys.
Proof.
  induction xs as [|x xs IH]; [done|].
  change (x +:+ join (xs ++ ys) = (x +:+ join xs) +:+ join ys).
  by rewrite IH, append_assoc.
Qed.

Lemma str_join_cons x (xs : list string) : join (x :: xs) = x +:+ join xs.
Proof. done. Qed.

Lemma split_lines_nil s : split_lines s = [] → s = "".
Proof.
  destruct s as [|c r]; [done|]. simpl.
  destruct (Ascii.eqb c "010"); [done|]. by destruct (split_lines r).
Qed.

Lemma universal_newlines_nil s : universal_newlines s = "" → s = "".
Proof.
  destruct s as [|c r]; [done|]. simpl. by destruct (Ascii.eqb c "013").
Qed.

Lemma readlines_nil s : readlines s = [] → s = "".
Proof. intros H. by apply universal_newlines_nil, split_lines_nil. Qed.

Lemma join_split_lines s : join (split_lines s) = s.
Proof.
  induction s as [|c r IH]; [done|]. simpl.
  destruct (Ascii.eqb c "010").
  - rewrite str_join_cons, IH. done.
  - destruct (split_lines r) as [|l ls] eqn:E.
    + apply split_lines_nil in E as ->. done.
    + rewrite str_join_cons in *. rewrite append_cons, IH. done.
Qed.

Lemma universal_newlines_no_cr s : has_cr s = false → universal_newlines s = s.
Proof.
  induction s as [|c r IH]; [done|]. simpl.
  destruct (Ascii.eqb c "013"); [done|]. simpl. intros H. by rewrite IH.
Qed.

Lemma has_cr_universal_newlines_le n s :
  (String.length s ≤ n)%nat → has_cr (universal_newlines s) = false.
Proof.
  revert s. induction n as [|n IH]; intros [|c r] Hn; simpl in *; try done; try lia.
  destruct (Ascii.eqb c "013") eqn:Ec.
  - simpl. destruct r as [|c' r']; [done|].
    destruct (Ascii.eqb c' "010"); apply IH; simpl in *; lia.
  - simpl. rewrite Ec. simpl. apply IH. lia.
Qed.

Lemma has_cr_universal_newlines s : has_cr (universal_newlines s) = false.
Proof. by apply (has_cr_universal_newlines_le (String.length s)). Qed.

Lemma universal_newlines_idemp s :
  universal_newlines (universal_newlines s) = universal_newlines s.
Proof. apply universal_newlines_no_cr, has_cr_universal_newlines. Qed.

(** What was read and is written back is the text with its line ends
    translated. *)
Lemma writelines_readlines s : writelines (readlines s) = universal_newlines s.
Proof. apply join_split_lines. Qed.

Lemma readlines_cons_lf rest : readlines (String "010" rest) = nl :: readlines rest.
Proof. done. Qed.

Lemma readlines_cons_other c rest :
  Ascii.eqb c "013" = false → Ascii.eqb c "010" = false →
  readlines (String c rest) =
    match readlines rest with
    | [] => [String c ""]
    | line :: lines => String c line :: lines
    end.
Proof. intros Hr Hn. unfold readlines. simpl. by rewrite Hr; simpl; rewrite Hn. Qed.

Lemma readlines_cr_lf rest :
  readlines (String "013" (String "010" rest)) = nl :: readlines rest.
Proof. done. Qed.

Lemma readlines_cr_other c rest :
  Ascii.eqb c "010" = false →
  readlines (String "013" (String c rest)) = nl :: readlines (String c rest).
Proof. intros Hn. unfold readlines. cbn [universal_newlines]. by rewrite Hn. Qed.

(** A text read after a line that ends in a line feed is read on its
    own. *)
Lemma readlines_app_le n b rest :
  (String.length b ≤ n)%nat →
  readlines ((b +:+ nl) +:+ rest) = readlines (b +:+ nl) ++ readlines rest.
Proof.
  revert b. induction n as [|n IH]; intros [|c b] Hn; simpl in Hn; try lia.
  - done.
  - done.
  - rewrite !append_cons.
    destruct (Ascii.eqb c "013") eqn:Ec.
    + apply Ascii.eqb_eq in Ec as ->.
      destruct b as [|c' b'].
      * done.
      * rewrite !append_cons. destruct (Ascii.eqb c' "010") eqn:Ec'.
        -- apply Ascii.eqb_eq in Ec' as ->. rewrite !readlines_cr_lf.
           rewrite IH by (simpl in Hn; lia). done.
        -- rewrite !readlines_cr_other by done.
           rewrite <- !append_cons. rewrite IH by (simpl in *; lia). done.
    + destruct (Ascii.eqb c "010") eqn:En.
      * apply Ascii.eqb_eq in En as ->. rewrite !readlines_cons_lf.
        rewrite IH by lia. done.
      * rewrite !readlines_cons_other by done. rewrite IH by lia.
        destruct (readlines (b +:+ nl)) as [|l ls] eqn:E; [|done].
        apply readlines_nil in E. by destruct b.
Qed.

Lemma readlines_app b rest :
  readlines ((b +:+ nl) +:+ rest) = readlines (b +:+ nl) ++ readlines rest.
Proof. by apply (readlines_app_le (String.length b)). Qed.

Lemma lines_closed_tail l (ls : list string) : lines_closed (l :: ls) → lines_closed ls.
Proof. intros H i x Hx Hi. apply (H (S i) x); [done|simpl; lia]. Qed.

Lemma readlines_join (file_lines : list string) :
  lines_closed file_lines →
  readlines (join file_lines) = mjoin (readlines <$> file_lines).
Proof.
  induction file_lines as [|l ls IH]; intros H; [done|].
  rewrite str_join_cons. rewrite fmap_cons. simpl.
  destruct ls as [|l' ls'].
  - simpl. rewrite append_nil_r. by rewrite app_nil_r.
  - destruct (H 0%nat l) as [b ->]; [done|simpl; lia|].
    rewrite readlines_app. f_equal. apply IH. by eapply lines_closed_tail.
Qed.

(** A line that was read has no line end inside and is read back as
    itself. *)
Lemma split_lines_elem t l :
  l ∈ split_lines t → split_lines l = [l] ∧ (has_cr t = false → has_cr l = false).
Proof.
  revert l. induction t as [|c r IH]; intros l; simpl; [by intros ?%elem_of_nil|].
  destruct (Ascii.eqb c "010") eqn:En.
  - intros [->|Hl]%elem_of_cons.
    + split; [by simpl; rewrite En|]. simpl. by intros ->%orb_false_iff%proj1.
    + destruct (IH l Hl) as [? Hcr]. split; [done|].
      intros [_ ?]%orb_false_iff. by apply Hcr.
  - destruct (split_lines r) as [|x xs] eqn:E.
    + intros ->%list_elem_of_singleton. split; [by simpl; rewrite En|].
      simpl. by intros ->%orb_false_iff%proj1.
    + intros [->|Hl]%elem_of_cons.
      * destruct (IH x) as [Hx Hcr]; [left|].
        split.
        -- simpl. rewrite En, Hx. done.
        -- simpl. intros [-> ?]%orb_false_iff. by apply Hcr.
      * destruct (IH l) as [? Hcr]; [by right|]. split; [done|].
        intros [_ ?]%orb_false_iff. by apply Hcr.
Qed.

Lemma readlines_elem s l : l ∈ readlines s → readlines l = [l].
Proof.
  intros Hl. destruct (split_lines_elem _ _ Hl) as [Hsplit Hcr].
  unfold readlines. rewrite universal_newlines_no_cr; [done|].
  apply Hcr, has_cr_universal_newlines.
Qed.

Lemma readlines_lines (file_lines : list string) s :
  file_lines ⊆ readlines s → mjoin (readlines <$> file_lines) = file_lines.
Proof.
  induction file_lines as [|l ls IH]; intros H; [done|].
  rewrite fmap_cons. simpl. rewrite (readlines_elem s l) by (apply H; left).
  simpl. f_equal. apply IH. intros x Hx. apply H. by right.
Qed.

Lemma split_lines_closed t : lines_closed (split_lines t).
Proof.
  induction t as [|c r IH]; [by intros i l ?|]. simpl.
  destruct (Ascii.eqb c "010") eqn:En.
  - apply Ascii.eqb_eq in En as ->. intros [|i] l Hl Hi; simpl in *.
    + simplify_eq. by exists ""%string.
    + apply (IH i l Hl). lia.
  - destruct (split_lines r) as [|x xs] eqn:E.
    + intros [|i] l Hl Hi; simpl in *; lia.
    + intros [|i] l Hl Hi; simpl in *.
      * simplify_eq. destruct (IH 0%nat x) as [b ->]; [done|simpl; lia|].
        by exists (String c b).
      * apply (IH (S i) l Hl). simpl. lia.
Qed.

Lemma lines_closed_insert (file_lines : list string) p b :
  lines_closed file_lines → lines_closed (<[p := b +:+ nl]> file_lines).
Proof.
  intros H i l Hl Hi. rewrite length_insert in Hi.
  destruct (decide (p = i)) as [->|Hne].
  - rewrite list_lookup_insert_eq in Hl by lia. simplify_eq. by exists b.
  - rewrite list_lookup_insert_ne in Hl by done. by apply (H i).
Qed.

Lemma readlines_closed s : lines_closed (readlines s).
Proof. apply split_lines_closed. Qed.

End Texts.

(** ** The patch on disk *)

Section PatchOnDisk.

Implicit Types (fs : files) (path content confirmation : string).
Implicit Types (c : json) (line : Z) (changes : list json).

(** X13. A batch that changes no line (commentary only, say) still
    rewrites the file: the text comes back with every carriage return,
    alone or before a line feed, turned into a line feed; a text without
    carriage returns is written back as it was. For a file and a batch
    of plain text, which is read, printed and written without a
    [UnicodeError]. *)
Theorem no_edit_batch_translates_line_ends fs path content changes confirmation :
  fs !! path = Some content →
  plain content = true →
  Forall (λ c, plain_json c = true) changes →
  apply_changes (readlines content) changes = Ok (readlines content) →
  apply_changes_on_disk fs path changes false confirmation
    = (<[path := universal_newlines content]> fs, Return) ∧
  (has_cr content = false →
   apply_changes_on_disk fs path changes false confirmation = (fs, Return)).
Proof.
  intros Hfile _ _ Hsame.
  assert (apply_changes_on_disk fs path changes false confirmation
          = (<[path := universal_newlines content]> fs, Return)) as Heq.
  { unfold apply_changes_on_disk. rewrite Hfile, Hsame. cbn [andb].
    by rewrite writelines_readlines. }
  split; [done|]. intros Hcr. rewrite Heq.
  rewrite universal_newlines_no_cr by done. by rewrite insert_id.
Qed.

Lemma no_edit_batch_translates_line_ends_witness :
  let fs : files := {[ "a.py"%string := "x = 1" +:+ String "013" nl +:+ "y = 2" ]} in
  apply_changes_on_disk fs "a.py"
    [JObj [("explanation"%string, JStr "nothing to do")]] false ""
  = (<[ "a.py"%string := "x = 1" +:+ nl +:+ "y = 2" ]> fs, Return).
Proof.
  intros fs.
  refine (proj1 (no_edit_batch_translates_line_ends fs "a.py"
    ("x = 1" +:+ String "013" nl +:+ "y = 2")
    [JObj [("explanation"%string, JStr "nothing to do")]] "" _ _ _ _)).
  - reflexivity.
  - reflexivity.
  - repeat constructor.
  - reflexivity.
Defined.

Lemma replace_on_disk fs path content c line (v : string) confirmation :
  fs !! path = Some content →
  has_fields c (JStr "Replace") line (JStr v) →
  1 ≤ line ≤ Z.of_nat (length (readlines content)) →
  apply_changes_on_disk fs path [c] false confirmation
  = (<[path := writelines (<[Z.to_nat (line - 1) := ln v]> (readlines content))]> fs,
     Return).
Proof.
  intros Hfile Hf Hline. unfold apply_changes_on_disk. rewrite Hfile.
  rewrite (apply_changes_single _ _ (JStr "Replace") line);
    [|by destruct Hf|by eapply has_fields_line_of].
  rewrite (apply_change_fields _ _ _ _ _ Hf).
  cbn [str_eq String.eqb Ascii.eqb Bool.eqb add_newline mbind res_bind].
  unfold list_setitem. rewrite list_index_in_range by lia. done.
Qed.

(** X14. A [Replace] within the file whose content holds line ends of
    its own: read again, the file has the lines before the addressed one,
    then the content cut at its line ends, then the lines after it. Every
    line after the addressed one moves down by the number of line ends the
    content holds. For a file and an operation of plain text. *)
Theorem replaced_text_read_back fs path content c line (v : string) confirmation :
  fs !! path = Some content →
  plain content = true →
  plain_json c = true →
  has_fields c (JStr "Replace") line (JStr v) →
  1 ≤ line ≤ Z.of_nat (length (readlines content)) →
  ∃ text,
    apply_changes_on_disk fs path [c] false confirmation
      = (<[path := text]> fs, Return) ∧
    readlines text
      = take (Z.to_nat (line - 1)) (readlines content) ++ readlines (ln v)
          ++ drop (Z.to_nat line) (readlines content).
Proof.
  intros Hfile _ _ Hf Hline. eexists. split; [by eapply replace_on_disk|].
  unfold writelines.
  rewrite readlines_join by apply lines_closed_insert, readlines_closed.
  rewrite insert_take_drop by lia.
  rewrite fmap_app, fmap_cons, join_app. cbn [mjoin list_join].
  rewrite (readlines_lines _ content), (readlines_lines _ content).
  - by replace (S (Z.to_nat (line - 1))) with (Z.to_nat line) by lia.
  - apply subseteq_drop.
  - apply subseteq_take.
Qed.

Lemma replaced_text_read_back_witness :
  let fs : files := {[ "a.py"%string := "a" +:+ nl +:+ "b" +:+ nl +:+ "c" +:+ nl ]} in
  ∃ text,
    apply_changes_on_disk fs "a.py"
      [edit "Replace" 2 (JStr ("p" +:+ nl +:+ "q"))] false ""
      = (<[ "a.py"%string := text ]> fs, Return) ∧
    readlines text = [ln "a"; ln "p"; ln "q"; ln "c"].
Proof.
  intros fs.
  refine (replaced_text_read_back fs "a.py" ("a" +:+ nl +:+ "b" +:+ nl +:+ "c" +:+ nl)
    (edit "Replace" 2 (JStr ("p" +:+ nl +:+ "q"))) 2 ("p" +:+ nl +:+ "q") "" _ _ _ _ _).
  - reflexivity.
  - reflexivity.
  - reflexivity.
  - apply has_fields_edit.
  - vm_compute. split; discriminate.
Defined.

(** X15. [InsertAfter] at the last line or beyond it appends to the text
    as it is: when the file does not end in a line feed, the inserted
    content continues its last line instead of starting a new one. For a
    file and an operation of plain text. *)
Theorem insert_at_end_appends_to_text fs path content c line (v : string) confirmation :
  fs !! path = Some content →
  plain content = true →
  plain_json c = true →
  has_fields c (JStr "InsertAfter") line (JStr v) →
  Z.of_nat (length (readlines content)) ≤ line ≤ PY_SSIZE_T_MAX →
  apply_changes_on_disk fs path [c] false confirmation
  = (<[path := universal_newlines content +:+ ln v]> fs, Return).
Proof.
  intros Hfile _ _ Hf Hline. unfold apply_changes_on_disk. rewrite Hfile.
  rewrite (apply_changes_single _ _ (JStr "InsertAfter") line);
    [|by destruct Hf|by eapply has_fields_line_of].
  rewrite (apply_change_fields _ _ _ _ _ Hf).
  cbn [str_eq String.eqb Ascii.eqb Bool.eqb add_newline mbind res_bind].
  rewrite list_insert_beyond by done. cbn [andb].
  unfold writelines. rewrite str_join_app, str_join_cons.
  change (join []) with ""%string. rewrite append_nil_r.
  by rewrite <- (writelines_readlines content).
Qed.

Lemma insert_at_end_appends_to_text_witness :
  let fs : files := {[ "a.py"%string := "a" +:+ nl +:+ "b" ]} in
  apply_changes_on_disk fs "a.py" [edit "InsertAfter" 2 (JStr "c")] false ""
  = (<[ "a.py"%string := "a" +:+ nl +:+ "bc" +:+ nl ]> fs, Return).
Proof.
  intros fs.
  refine (insert_at_end_appends_to_text fs "a.py" ("a" +:+ nl +:+ "b")
    (edit "InsertAfter" 2 (JStr "c")) 2 "c" "" _ _ _ _ _).
  - reflexivity.
  - reflexivity.
  - reflexivity.
  - apply has_fields_edit.
  - vm_compute. split; discriminate.
Defined.

End PatchOnDisk.

(** ** The session *)

Section Session.

Context (w : world).
Context (send : files → string → list string → string → list exchange → option run).

Implicit Types (fs : files) (script_name content confirmation : string).
Implicit Types (script_args : list string) (changes : list json).
Implicit Types (cycles : list (list exchange * string)) (e : ending).

Lemma length_append (s t : string) :
  String.length (s +:+ t) = (String.length s + String.length t)%nat.
Proof. induction s as [|c s IH]; [done|]. rewrite append_cons. simpl. by rewrite IH. Qed.

(** The backup is another file than the script. *)
Lemma backup_of_ne script_name : backup_of script_name ≠ script_name.
Proof.
  intros H. apply (f_equal String.length) in H. unfold backup_of in H.
  rewrite length_append in H. simpl in H. lia.
Qed.

(** What a call of [apply_changes] does to the files: it writes the one
    file, and only when it returns; under [confirm], only after a yes. *)
Lemma apply_changes_on_disk_cases fs path changes confirm confirmation fs' e :
  apply_changes_on_disk fs path changes confirm confirmation = (fs', e) →
  (e = Return ∧ (confirm = true → is_yes confirmation = true) ∧
   ∃ text, fs' = <[path := text]> fs) ∨
  (fs' = fs ∧
   (e = FileNotFoundError ∨ e = SystemExit 0 ∨ ∃ x, e = Raise x)).
Proof.
  unfold apply_changes_on_disk.
  destruct (fs !! path) as [content|]; [|intros [= <- <-]; right; auto].
  destruct (apply_changes _ _) as [file_lines|x];
    [|intros [= <- <-]; right; eauto].
  destruct confirm, (is_yes confirmation); cbn [andb negb];
    intros [= <- <-]; try (left; by eauto); right; auto.
Qed.

Lemma fix_loop_cases script_name script_args confirm cycles fs fs' e :
  fix_loop w send script_name script_args confirm cycles fs = (fs', e) →
  (∀ path, path ≠ script_name → fs' !! path = fs !! path) ∧
  (e = Return → ∃ output, run_script w fs' script_name script_args = Some (output, 0)) ∧
  (e = GaveUp → ∃ cycles' fs1 output chat (r : run),
     send fs1 script_name script_args output chat = Some r ∧
     result r = NoValidJSON).
Proof.
  revert fs. induction cycles as [|[chat confirmation] cycles IH]; intros fs;
    cbn [fix_loop].
  - destruct (run_script w fs script_name script_args) as [[output returncode]|] eqn:Hrun;
      [|by intros [= <- <-]].
    destruct (Z.eqb_spec returncode 0) as [->|Hne]; intros [= <- <-];
      (split; [done|split; [|done]]); [|done]. by eauto.
  - destruct (run_script w fs script_name script_args) as [[output returncode]|] eqn:Hrun;
      [|by intros [= <- <-]].
    destruct (Z.eqb_spec returncode 0) as [->|Hne].
    { intros [= <- <-]. split; [done|split; [|done]]. by eauto. }
    destruct (send fs script_name script_args output chat) as [r|] eqn:Hsend;
      [|by intros [= <- <-]].
    destruct (result r) as [j| | |] eqn:Hres;
      try (intros [= <- <-]; split; [done|split; [done|]]; try done;
           intros _; by exists cycles, fs, output, chat, r).
    destruct j as [|?|?|?|?|changes|?]; try (by intros [= <- <-]).
    destruct (apply_changes_on_disk fs script_name changes confirm confirmation)
      as [fs1 e1] eqn:Hdisk.
    apply apply_changes_on_disk_cases in Hdisk
      as [(-> & _ & text & ->)|(-> & [->|[->|[x ->]]])];
      try (by intros [= <- <-]).
    intros (Hframe & Hret & Hgave)%IH. split; [|done].
    intros path Hpath. rewrite Hframe by done. by rewrite lookup_insert_ne.
Qed.

(** X16. A session (one call of [main] without [revert]) on a script
    that exists leaves, however it ends, the text the script had at its
    start in the backup file, and writes no file but the script and its
    backup. In both versions; the runs of the script itself are taken to
    write nothing. *)
Theorem backup_holds_first_text script_name script_args confirm cycles fs fs' e content :
  fs !! script_name = Some content →
  session w send script_name script_args false confirm cycles fs = (fs', e) →
  fs' !! backup_of script_name = Some content ∧
  ∀ path, path ≠ script_name → path ≠ backup_of script_name →
    fs' !! path = fs !! path.
Proof.
  intros Hfile. unfold session. rewrite Hfile.
  intros [Hframe _]%fix_loop_cases. split.
  - rewrite Hframe by apply backup_of_ne. by rewrite lookup_insert_eq.
  - intros path H1 H2. rewrite Hframe by done. by rewrite lookup_insert_ne.
Qed.

(** X17. Round trip: [main] with [revert] after a session, whatever that
    session did to the script and however it ended, puts the text of the
    session's start back into the script and leaves with status 0. In
    both versions; the runs of the script itself are taken to write
    nothing. *)
Theorem revert_restores_first_text script_name script_args script_args'
    confirm confirm' cycles cycles' fs fs' e content :
  fs !! script_name = Some content →
  session w send script_name script_args false confirm cycles fs = (fs', e) →
  session w send script_name script_args' true confirm' cycles' fs'
  = (<[script_name := content]> fs', SystemExit 0).
Proof.
  intros Hfile. unfold session at 1. rewrite Hfile.
  intros [Hframe _]%fix_loop_cases.
  unfold session. rewrite Hframe by apply backup_of_ne.
  by rewrite lookup_insert_eq.
Qed.

(** X18. [main] returns only on a clean run: when a session returns, the
    script as the session leaves it has just run with status 0; no other
    way leads out of the loop without an exception or [sys.exit]. In both
    versions. *)
Theorem returns_after_clean_run script_name script_args revert confirm cycles fs fs' :
  session w send script_name script_args revert confirm cycles fs = (fs', Return) →
  ∃ output, run_script w fs' script_name script_args = Some (output, 0).
Proof.
  unfold session. destruct revert.
  - by destruct (fs !! backup_of script_name).
  - destruct (fs !! script_name); [|done].
    intros (_ & Hret & _)%fix_loop_cases. by apply Hret.
Qed.

(** X19. Under [confirm], nothing is written to the script without a yes:
    when the operator never answers [y] or [Y], the session leaves every
    file as it was but for the backup it made. In both versions. *)
Theorem unconfirmed_session_keeps_script script_name script_args cycles fs content :
  fs !! script_name = Some content →
  Forall (λ cycle, is_yes cycle.2 = false) cycles →
  (session w send script_name script_args false true cycles fs).1
  = <[backup_of script_name := content]> fs.
Proof.
  intros Hfile Hno. unfold session. rewrite Hfile.
  destruct Hno as [|[chat confirmation] cycles Hc _]; cbn [fix_loop];
    destruct (run_script w _ script_name script_args) as [[output returncode]|];
    try done; destruct (returncode =? 0); try done.
  destruct (send _ script_name script_args output chat) as [r|]; [|done].
  destruct (result r) as [j| | |]; try done.
  destruct j as [|?|?|?|?|changes|?]; try done.
  destruct (apply_changes_on_disk _ script_name changes true confirmation)
    as [fs1 e1] eqn:Hdisk.
  apply apply_changes_on_disk_cases in Hdisk
    as [(-> & Hyes & _)|(-> & [->|[->|[x ->]]])]; try done.
  cbn [snd] in Hc. rewrite Hyes in Hc; done.
Qed.

End Session.

(** [backup_holds_first_text] at a session of src/wolverine/wolverine.py
    that fixes the example script in one turn. *)
Lemma backup_holds_first_text_witness :
  let r := WolverineCLI.main (example_world (-1)) ["a.py"%string] false false
             [([Reply example_fix], ""%string)] example_files in
  r.1 !! backup_of "a.py" = Some broken_script ∧
  ∀ path, path ≠ "a.py"%string → path ≠ backup_of "a.py" →
    r.1 !! path = example_files !! path.
Proof.
  intros r.
  apply (backup_holds_first_text (example_world (-1))
           (WolverineCLI.send_error_to_gpt (example_world (-1)))
           "a.py" [] false [([Reply example_fix], ""%string)] example_files
           r.1 r.2 broken_script).
  - reflexivity.
  - symmetry. apply surjective_pairing.
Defined.

(** [revert_restores_first_text] after the session that fixed the example
    script, in src/tests/test_wolverine.py. *)
Lemma revert_restores_first_text_witness :
  let r := TestWolverineCLI.main (example_world (-1)) "a.py" [] false false
             [([Reply example_fix], ""%string)] example_files in
  r.1 !! "a.py"%string = Some fixed_script ∧
  TestWolverineCLI.main (example_world (-1)) "a.py" [] true false [] r.1
  = (<["a.py"%string := broken_script]> r.1, SystemExit 0).
Proof.
  intros r. split; [reflexivity|].
  apply (revert_restores_first_text (example_world (-1))
           (TestWolverineCLI.send_error_to_llama (example_world (-1)))
           "a.py" [] [] false false [([Reply example_fix], ""%string)] []
           example_files r.1 r.2 broken_script).
  - reflexivity.
  - symmetry. apply surjective_pairing.
Defined.

(** [returns_after_clean_run] at the session that fixes the example
    script in one turn. *)
Lemma returns_after_clean_run_witness :
  ∃ output,
    run_script (example_world (-1))
      (<["a.py"%string := fixed_script]>
         (<[backup_of "a.py" := broken_script]> example_files)) "a.py" []
    = Some (output, 0).
Proof.
  apply (returns_after_clean_run (example_world (-1))
           (WolverineCLI.send_error_to_gpt (example_world (-1)))
           "a.py" [] false false [([Reply example_fix], ""%string)]
           example_files).
  vm_compute. reflexivity.
Defined.

(** [unconfirmed_session_keeps_script] at the example session with the
    answer [n] to the question. *)
Lemma unconfirmed_session_keeps_script_witness :
  (WolverineCLI.main (example_world (-1)) ["a.py"%string] false true
     [([Reply example_fix], "n"%string)] example_files).1
  = <[backup_of "a.py" := broken_script]> example_files.
Proof.
  apply (unconfirmed_session_keeps_script (example_world (-1))
           (WolverineCLI.send_error_to_gpt (example_world (-1)))
           "a.py" [] [([Reply example_fix], "n"%string)] example_files
           broken_script).
  - reflexivity.
  - repeat constructor.
Defined.

Section Mains.

Context (w : world).

Implicit Types (fs : files) (script_name content : string).
Implicit Types (cycles : list (list exchange * string)).

(** X20. src/wolverine/wolverine.py never gives up on the model: with
    the budget of -1 that [send_error_to_gpt] leaves to the default,
    [main] never ends with the exception ["No valid JSON response
    found."]; replies that do not parse are asked again without end. *)
Theorem wolverine_main_never_gives_up args revert confirm cycles fs :
  (WolverineCLI.main w args revert confirm cycles fs).2 ≠ GaveUp.
Proof.
  unfold WolverineCLI.main. destruct args as [|script_name script_args]; [done|].
  unfold session. destruct revert.
  { by destruct (fs !! backup_of script_name). }
  destruct (fs !! script_name) as [content|]; [|done].
  destruct (fix_loop _ _ _ _ _ _ _) as [fs' e] eqn:Hloop. cbn [snd].
  intros ->. apply fix_loop_cases in Hloop as (_ & _ & Hgave).
  destruct Hgave as (_ & fs1 & output & chat & r & Hsend & Hres); [done|].
  unfold WolverineCLI.send_error_to_gpt in Hsend.
  destruct (fs1 !! script_name); [|done]. injection Hsend as <-.
  by apply wolverine_unlimited in Hres.
Qed.

(** X21. With [VALIDATE_JSON_RETRY] set to 0, src/tests/test_wolverine.py
    cannot fix anything: a session on a script that fails gives up before
    the first exchange with the model, the script untouched. For a script
    and an output of plain text, which [send_error_to_llama] reads and
    [main] prints without a [UnicodeError]. *)
Theorem zero_budget_gives_up script_name script_args confirm cycle cycles fs content
    output returncode :
  VALIDATE_JSON_RETRY w = 0 →
  fs !! script_name = Some content →
  plain content = true →
  run_script w (<[backup_of script_name := content]> fs) script_name script_args
    = Some (output, returncode) →
  plain output = true →
  returncode ≠ 0 →
  TestWolverineCLI.main w script_name script_args false confirm (cycle :: cycles) fs
  = (<[backup_of script_name := content]> fs, GaveUp).
Proof.
  intros Hzero Hfile _ Hrun _ Hcode. unfold TestWolverineCLI.main, session.
  rewrite Hfile. destruct cycle as [chat confirmation]. cbn [fix_loop].
  rewrite Hrun. destruct (Z.eqb_spec returncode 0); [done|].
  unfold TestWolverineCLI.send_error_to_llama.
  rewrite lookup_insert_ne by apply backup_of_ne. rewrite Hfile.
  rewrite Hzero. by destruct chat.
Qed.

End Mains.

(** [zero_budget_gives_up] at the example script, with a model that would
    have sent the fix. *)
Lemma zero_budget_gives_up_witness :
  TestWolverineCLI.main (example_world 0) "a.py" [] false false
    [([Reply example_fix], ""%string)] example_files
  = (<[backup_of "a.py" := broken_script]> example_files, GaveUp).
Proof.
  apply (zero_budget_gives_up (example_world 0) "a.py" [] false
           ([Reply example_fix], ""%string) [] example_files broken_script
           (ln "SyntaxError") 1).
  - reflexivity.
  - reflexivity.
  - reflexivity.
  - reflexivity.
  - reflexivity.
  - discriminate.
Defined.
